(** * hook.io: the hook runtime of lib/hookio/hook.js

    A shallow embedding of [Hook.prototype.emit], [start], [listen] (the
    registry, [_addOrRemoveEvent], [_registerEvents], the per-connection
    [report], [message] and [hasEvent] handlers and the [onAny] broadcast
    intercept), [connect] (the reply of [remote.report] with
    [checkVersion]), [hasEvent], [off] and [removeAllListeners]; then of
    the handlers of the end of a connection and of the server's [error]
    and [ready] events, of [getStringEvents], of [isIP] with its regular
    expression, of [toIPs] and of [_cliOptions].

    JavaScript values are a small first-order fragment; the hook is a
    record; a method is a computation in a monad that threads the hook,
    logs every call that leaves hook.js (dnode, EventEmitter2, the log
    sink, the auxiliary transports, user callbacks) and may throw. *)

From stdpp Require Import base strings list gmap pretty.
From Stdlib Require Import ZArith Lia.

Open Scope string_scope.
Open Scope list_scope.
Open Scope Z_scope.

Set Warnings "-register-all".

(** ** JavaScript values *)

Module JS.

(** Numbers are the integers (no NaN, no fractions: the code under study
    only counts).  Every object carries its own properties; a function is
    known by an identifier and its source text. *)
Inductive value : Type :=
  | VUndefined
  | VNull
  | VBool (b : bool)
  | VNum (n : Z)
  | VStr (s : string)
  | VArr (elems : list value) (props : list (string * value))
  | VObj (props : list (string * value))
  | VFun (id : nat) (src : string) (props : list (string * value)).

(** [typeof v === 'function'] *)
Definition is_function (v : value) : bool :=
  match v with VFun _ _ _ => true | _ => false end.

(** [typeof v === 'string'] *)
Definition is_string (v : value) : bool :=
  match v with VStr _ => true | _ => false end.

(** [v instanceof Array] *)
Definition is_array (v : value) : bool :=
  match v with VArr _ _ => true | _ => false end.

(** ToBoolean: what [if (v)], [!v], [a && b] and [a || b] test. *)
Definition truthy (v : value) : bool :=
  match v with
  | VUndefined | VNull => false
  | VBool b => b
  | VNum n => negb (n =? 0)
  | VStr s => negb (String.eqb s "")
  | VArr _ _ | VObj _ | VFun _ _ _ => true
  end.

(** Own properties, most recent first. *)
Fixpoint assoc_get (k : string) (l : list (string * value)) : option value :=
  match l with
  | [] => None
  | (k', v) :: l' => if String.eqb k k' then Some v else assoc_get k l'
  end.

Fixpoint assoc_set (k : string) (v : value) (l : list (string * value))
  : list (string * value) :=
  match l with
  | [] => [(k, v)]
  | (k', v') :: l' =>
      if String.eqb k k' then (k, v) :: l' else (k', v') :: assoc_set k v l'
  end.

(** [o.k] for a name [k] that no prototype defines ([code], [ctx]):
    [None] is the TypeError of reading a property of undefined or null. *)
Definition get_prop (o : value) (k : string) : option value :=
  match o with
  | VUndefined | VNull => None
  | VBool _ | VNum _ | VStr _ => Some VUndefined
  | VArr _ ps | VObj ps | VFun _ _ ps =>
      Some (default VUndefined (assoc_get k ps))
  end.

(** [o.k = v] in sloppy mode (hook.js has no strict directive): a
    TypeError ([None]) on undefined and null, silently dropped on the
    other primitives, stored on an object. *)
Definition set_prop (o : value) (k : string) (v : value) : option value :=
  match o with
  | VUndefined | VNull => None
  | VBool _ | VNum _ | VStr _ => Some o
  | VArr es ps => Some (VArr es (assoc_set k v ps))
  | VObj ps => Some (VObj (assoc_set k v ps))
  | VFun i s ps => Some (VFun i s (assoc_set k v ps))
  end.

(** [v === s] for a string literal [s]. *)
Definition strict_eq_str (v : value) (s : string) : bool :=
  match v with VStr s' => String.eqb s' s | _ => false end.

(** ToString, which also gives the property key of [events[data]]: the
    string JavaScript makes of a value that is [printable] (below).  A
    number prints digit by digit, as the integers up to 2^53 do; an object
    prints through [Object.prototype.toString], an array through
    [Array.prototype.join] and a function as its source text, as they do
    without a [toString] or [join] of their own. *)
Fixpoint ToString (v : value) : string :=
  match v with
  | VUndefined => "undefined"
  | VNull => "null"
  | VBool true => "true"
  | VBool false => "false"
  | VNum n => pretty n
  | VStr s => s
  | VArr es _ =>
      (fix join (l : list value) : string :=
         match l with
         | [] => ""
         | x :: l' =>
             let sx := match x with
                       | VUndefined | VNull => ""
                       | _ => ToString x
                       end in
             match l' with
             | [] => sx
             | _ :: _ => sx +:+ "," +:+ join l'
             end
         end) es
  | VObj _ => "[object Object]"
  | VFun _ src _ => src
  end.

(** The character of the delimiter, code 58. *)
Definition colon : Ascii.ascii :=
  Ascii.Ascii false true false true true true false false.

(** [s.split('::')]: the segments between the occurrences of the
    delimiter, found from the left; never the empty array. *)
Fixpoint split_go (s : string) (cur : string) : list string :=
  match s with
  | EmptyString => [cur]
  | String a s' =>
      match s' with
      | String b rest =>
          if (Ascii.eqb a colon && Ascii.eqb b colon)%bool
          then cur :: split_go rest ""
          else split_go s' (cur +:+ String a EmptyString)
      | EmptyString => [cur +:+ String a EmptyString]
      end
  end.

(** [k] is an own key of the properties [ps]. *)
Definition has_key (k : string) (ps : list (string * value)) : bool :=
  match assoc_get k ps with Some _ => true | None => false end.

(** The values [ToString] prints as JavaScript does: a number is an
    integer of magnitude at most 2^53 (beyond, JavaScript rounds and, from
    10^21 on, prints an exponent); an object or function has no [toString]
    of its own, an array none and no [join], so that no code of the value
    runs when it is made a property key. *)
Fixpoint printable (v : value) : bool :=
  match v with
  | VUndefined | VNull | VBool _ | VStr _ => true
  | VNum n => Z.abs n <=? 2 ^ 53
  | VArr es ps =>
      ((fix all (l : list value) : bool :=
          match l with
          | [] => true
          | x :: l' => printable x && all l'
          end) es
       && negb (has_key "toString" ps) && negb (has_key "join" ps))%bool
  | VObj ps | VFun _ _ ps => negb (has_key "toString" ps)
  end.

(** The keys every object inherits from [Object.prototype] (ES5 15.2.4,
    and the accessors of V8).  [self._names] and the [events] of an entry
    are plain objects: where such a key is no own key, [o[k]] reads the
    inherited value, and [o['__proto__'] = v] stores no own key. *)
Definition Object_prototype : list string :=
  ["constructor"; "toString"; "toLocaleString"; "valueOf";
   "hasOwnProperty"; "isPrototypeOf"; "propertyIsEnumerable";
   "__defineGetter__"; "__defineSetter__"; "__lookupGetter__";
   "__lookupSetter__"; "__proto__"].

(** A value that names a key of [events] which only an own property can
    define: for these keys [events] is the finite map of its counts. *)
Definition plain_key (data : value) : Prop :=
  printable data = true ∧ ToString data ∉ Object_prototype.

End JS.

Export JS.

Definition DELIMITER : string := "::".

Definition split (s : string) : list string := split_go s "".

(** ** What hook.js is given: EventEmitter2, semver *)

(** The listener tree belongs to EventEmitter2: [listeners] answers with
    the sequence of the matching listeners, an array, be it empty; [off]
    and [removeAllListeners] change the tree. *)
Class EventEmitter2 (Tree : Type) := {
  ee_listeners : Tree → value → list value;
  ee_off : Tree → value → value → Tree;
  ee_removeAllListeners : Tree → value → Tree
}.

(** [semver.neq] on version strings. *)
Class Semver := { semver_neq : string → string → bool }.

(** ** The registry: [self._names] *)

Module Peer.

(** An entry of [self._names].  [checkName] creates it with a name only;
    [report] and [listen] fill in the rest. *)
Record t := mk {
  name : string;
  type : option value;
  session : option nat;
  remote : option (value * value);
  events : option (gmap string Z)
}.

Definition set_events (ev : gmap string Z) (r : t) : t :=
  mk (name r) (type r) (session r) (remote r) (Some ev).

End Peer.

(** [{type, options}] of [self.transports]. *)
Record transport := { t_type : string; t_options : value }.

(** The keys of the module's [_transports] table. *)
Definition _transports : list string := ["couchdb"].

(** The callback an emission carries: the caller's own third argument,
    whatever it is, or the closure [emit] makes when that is no function. *)
Inductive callback :=
  | Given (f : value)
  | Synthesized (event : string) (data : value).

(** The [client] object dnode hands to the connection handler, with the
    fields the server sets on it, and the [conn] of the same connection. *)
Record Client := {
  conn_id : nat;
  remotePort : value;
  remoteAddress : value;
  c_message : bool;
  c_name : option string;
  c_type : option value
}.

(** The argument of [report]. *)
Record Descriptor := {
  d_name : string;
  d_type : value;
  d_events : list value
}.

(** The function a call is given to be answered with, as the variables it
    closes over: the callback of [this.listen] in [start] (hook.js 284-291)
    and of [client.hasEvent] in the broadcast intercept (536-554). *)
Inductive continuation :=
  | OnListen (options callback : value)
  | OnHasEvent (client : Client) (event : string) (data : value)
      (callback : callback).

(** Calls that leave hook.js, in the order they are made. *)
Inductive call :=
  | Log (event : string) (data : value)
  | TransportMessage (type : string) (options : value) (topic : string)
      (data : value) (cb : callback)
  | RemoteMessage (topic : string) (data : value) (cb : callback)
  | LocalEmit (event : string) (data : value) (cb : callback)
  | Listeners (parts : value)
  | Off (type listener : value)
  | RemoveAllListeners (type : value)
  | ClientHasEvent (conn : nat) (parts : list string) (remote : callback)
      (k : continuation)
  | ClientMessage (conn : nat) (topic : string) (data : value) (cb : callback)
  | Reply (args : list value)
  | Listen (options : value) (k : continuation)
  | ServerListen (port : value)
  | Connect (options callback : value)
  | Invoke (f : value) (args : list value).

Inductive exn :=
  | TypeError
  | Error (msg : string).

(** How a function body ends; [Diverges] is the recursion that ran out of
    fuel. *)
Inductive completion (A : Type) :=
  | Normal (a : A)
  | Thrown (e : exn)
  | Diverges.
Arguments Normal {A} a.
Arguments Thrown {A} e.
Arguments Diverges {A}.

Definition completion_value {A} (c : completion A) : option A :=
  match c with Normal a => Some a | _ => None end.

Section Runtime.

Context {Tree : Type} {EE : EventEmitter2 Tree} {SV : Semver}.

(** The fields of [this] that the modelled methods read or write.
    [remote] and [server] say whether [self.remote] and [self.server] are
    set. *)
Record Hook := {
  name : string;
  type : value;
  id : value;
  pkginfo_version : string;
  hook_port : value;
  remote : bool;
  server : bool;
  _names : gmap string Peer.t;
  transports : list transport;
  listenerTree : Tree
}.

Definition set_names (m : gmap string Peer.t) (h : Hook) : Hook :=
  {| name := name h; type := type h; id := id h;
     pkginfo_version := pkginfo_version h;
     hook_port := hook_port h; remote := remote h; server := server h;
     _names := m; transports := transports h;
     listenerTree := listenerTree h |}.

Definition set_tree (t : Tree) (h : Hook) : Hook :=
  {| name := name h; type := type h; id := id h;
     pkginfo_version := pkginfo_version h;
     hook_port := hook_port h; remote := remote h; server := server h;
     _names := _names h; transports := transports h;
     listenerTree := t |}.

Definition set_name_id (n : string) (i : value) (h : Hook) : Hook :=
  {| name := n; type := type h; id := i;
     pkginfo_version := pkginfo_version h;
     hook_port := hook_port h; remote := remote h; server := server h;
     _names := _names h; transports := transports h;
     listenerTree := listenerTree h |}.

Definition set_server (b : bool) (h : Hook) : Hook :=
  {| name := name h; type := type h; id := id h;
     pkginfo_version := pkginfo_version h;
     hook_port := hook_port h; remote := remote h; server := b;
     _names := _names h; transports := transports h;
     listenerTree := listenerTree h |}.

(** ** The monad of a method body *)

Record run (A : Type) := Run {
  final : Hook;
  calls : list call;
  outcome : completion A
}.
Arguments Run {A} final calls outcome.
Arguments final {A} r.
Arguments calls {A} r.
Arguments outcome {A} r.

Definition M (A : Type) : Type := Hook → run A.

Definition ret {A} (a : A) : M A := λ h, Run h [] (Normal a).

Definition bind {A B} (m : M A) (k : A → M B) : M B := λ h,
  let r := m h in
  match outcome r with
  | Normal a =>
      let r' := k a (final r) in
      Run (final r') (calls r ++ calls r') (outcome r')
  | Thrown e => Run (final r) (calls r) (Thrown e)
  | Diverges => Run (final r) (calls r) Diverges
  end.

Definition self : M Hook := λ h, Run h [] (Normal h).
Definition update (f : Hook → Hook) : M unit := λ h, Run (f h) [] (Normal tt).
Definition do (c : call) : M unit := λ h, Run h [c] (Normal tt).
Definition throw {A} (e : exn) : M A := λ h, Run h [] (Thrown e).
Definition diverge {A} : M A := λ h, Run h [] Diverges.

#[global] Instance M_ret : MRet M := @ret.
#[global] Instance M_bind : MBind M := λ A B k m, bind m k.

(** [l.forEach(f)] *)
Fixpoint forEach {A} (l : list A) (f : A → M unit) : M unit :=
  match l with
  | [] => ret tt
  | x :: l' => f x ;; forEach l' f
  end.

(** ** The registry operations installed by [listen] *)

(** [(events[data]||0)], for a key that [Object.prototype] does not
    define (see [plain_key]): there [events[data]] is the own property or
    undefined. *)
Definition count_or_zero (events : gmap string Z) (key : string) : Z :=
  match events !! key with
  | Some c => if c =? 0 then 0 else c
  | None => 0
  end.

(** [self._addOrRemoveEvent], hook.js 398-414.  [events] is read before the
    switch; an entry or an [events] object that is missing is a TypeError.
    The count is written back into the entry the object is shared with.
    [events] is the finite map of the own properties of the object, which
    hold integers: this is the arithmetic of the code for a [plain_key] and
    counts below 2^53, which [+ 1] and [--] change by exactly one (for a
    key of [Object.prototype] the code reads the inherited function where
    the map has nothing). *)
Definition _addOrRemoveEvent (clientName : string) (event : string)
    (data : value) : M bool :=
  h ← self;
  match _names h !! clientName with
  | None => throw TypeError
  | Some r =>
      let key := ToString data in
      let store (ev : gmap string Z) : M unit :=
        update (set_names (<[clientName := Peer.set_events ev r]> (_names h))) in
      if String.eqb event "newListener" then
        match Peer.events r with
        | None => throw TypeError
        | Some events =>
            store (<[key := count_or_zero events key + 1]> events);;
            mret true
        end
      else if String.eqb event "removeListener" then
        match Peer.events r with
        | None => throw TypeError
        | Some events =>
            match events !! key with
            | Some c =>
                if c =? 0 then mret true
                else if c - 1 <=? 0 then store (delete key events);; mret true
                else store (<[key := c - 1]> events);; mret true
            | None => mret true
            end
        end
      else if String.eqb event "removeAllListeners" then
        match Peer.events r with
        | None => throw TypeError
        | Some events => store (delete key events);; mret true
        end
      else mret false
  end.

(** [self._registerEvents], hook.js 416-420. *)
Definition _registerEvents (clientName : string) (events : list value)
    : M unit :=
  forEach events (λ event,
    _addOrRemoveEvent clientName "newListener" event;; mret tt).

(** ** [Hook.prototype.emit], hook.js 174-262 *)

Definition reserved : list string :=
  ["newListener"; "removeListener"; "remoteAllListeners"].

(** [_transports[transport.type].message(...)]: a type that is no key of
    the table has no [message] to call. *)
Definition transport_message (t : transport) (topic : string) (data : value)
    (cb : callback) : M unit :=
  if bool_decide (t_type t ∈ _transports)
  then do (TransportMessage (t_type t) (t_options t) topic data cb)
  else throw TypeError.

(** Inside the function given to [forEach], [this] is the global object,
    whose [name] is not defined as long as no connection has ended (the
    loop of hook.js 425 assigns it); only the topic the auxiliary
    transports are given depends on it. *)
Definition global_this_name : value := VUndefined.

Definition emit (event : string) (data callback : value) : M unit :=
  if bool_decide (event ∈ reserved) then
    h ← self;
    (if remote h then do (RemoteMessage event data (Given callback))
     else if server h then
       _addOrRemoveEvent (name h) event data;; mret tt
     else mret tt);;
    do (LocalEmit event data (Given callback))
  else
    do (Log event data);;
    let data' := if is_function data then VNull else data in
    let callback' := if is_function data then data else callback in
    let cb := if is_function callback' then Given callback'
              else Synthesized event data' in
    h ← self;
    forEach (transports h) (λ t,
      transport_message t
        (ToString global_this_name +:+ DELIMITER +:+ event) data' cb);;
    (if remote h
     then do (RemoteMessage (name h +:+ DELIMITER +:+ event) data' cb)
     else mret tt);;
    do (LocalEmit event data' cb).

(** The closure of hook.js 222-235, called with [(err, result)];
    [self.emit] is the method above (a hook that [kill] has silenced is
    not modelled). *)
Definition synthesized_callback (event : string) (data : value)
    (err result : value) : M unit :=
  if truthy err then
    match set_prop err "ctx" data with
    | None => throw TypeError
    | Some err' => emit (event +:+ "::error") err' VUndefined
    end
  else
    match set_prop result "ctx" data with
    | None => throw TypeError
    | Some result' => emit (event +:+ "::result") result' VUndefined
    end.

(** [f(...)] or [f.apply(this, args)] for a value [f]. *)
Definition apply (f : value) (args : list value) : M unit :=
  if is_function f then do (Invoke f args) else throw TypeError.

(** ** [hasEvent], [off], [removeAllListeners], hook.js 731-746 *)

Definition hasEvent (parts remote : value) : M value :=
  if (negb (is_string parts) && negb (is_array parts))%bool then
    mret (VBool false)
  else
    h ← self;
    do (Listeners parts);;
    mret (VArr (ee_listeners (listenerTree h) parts) []).

(** [off], hook.js 738-741.  [EventEmitter.prototype.off] throws its
    Error for a listener that is no function, and [emit] is not reached. *)
Definition off (type listener : value) : M unit :=
  do (Off type listener);;
  (if is_function listener then mret tt
   else throw (Error "removeListener only takes instances of Function"));;
  update (λ h, set_tree (ee_off (listenerTree h) type listener) h);;
  emit "removeListener" type listener.

Definition removeAllListeners (type : value) : M unit :=
  do (RemoveAllListeners type);;
  update (λ h, set_tree (ee_removeAllListeners (listenerTree h) type) h);;
  emit "remoteAllListeners" type VUndefined.

(** ** [start], hook.js 271-292 *)

Definition start (options callback : value) : M unit :=
  let swap := (negb (truthy callback) && is_function options)%bool in
  let options' := if swap then VObj [] else options in
  let callback' := if swap then options else callback in
  do (Listen options' (OnListen options' callback')).

(** The function [start] gives to [listen], called with [args]. *)
Definition start_listened (options callback : value) (args : list value)
    : M unit :=
  let err := default VUndefined (args !! 0%nat) in
  if (truthy err &&
      strict_eq_str (default VUndefined (get_prop err "code")) "EADDRINUSE")%bool
  then do (Connect options callback)
  else if truthy callback then apply callback args
  else mret tt.

(** ** [listen]: the connection handler, hook.js 422-557 *)

(** [onResolve] without an error, up to [self.server.listen]: the hook
    enters the registry under its own name.  The assignment
    [self._names['__proto__'] = ...] makes the entry the prototype of the
    object and stores no own key: the registry of the model, which holds
    the own keys, stays as it is. *)
Definition listen_resolved (host : value) : M unit :=
  h ← self;
  (if String.eqb (name h) "__proto__" then mret tt
   else
     update (set_names (<[name h :=
       Peer.mk (name h) (Some (type h)) None (Some (hook_port h, host))
         (Some ∅)]> (_names h))));;
  update (set_server true);;
  do (ServerListen (hook_port h)).

(** [name + '-' + id] *)
Definition suffixed (requested : string) (id : nat) : string :=
  requested +:+ "-" +:+ pretty id.

(** [checkName (name, id)], hook.js 446-464; [None] is the [id] left out.
    [Object.keys(self._names).indexOf(_name) === -1] is the lookup that
    finds nothing among the own keys.  [self._names[_name] = {name: _name}]
    stores an own key, but for [__proto__]: there it replaces the prototype
    of the object, and the own keys stay as they are. *)
Fixpoint checkName_go (fuel : nat) (requested : string) (id : option nat)
    : M string :=
  match fuel with
  | O => diverge
  | S fuel' =>
      let _name := match id with
                   | Some i => suffixed requested i
                   | None => requested
                   end in
      let id' := match id with Some i => S i | None => O end in
      h ← self;
      if (bool_decide (_names h !! _name = None) &&
          bool_decide (name h ≠ _name))%bool
      then
        (if String.eqb _name "__proto__" then mret tt
         else
           update (set_names
             (<[_name := Peer.mk _name None None None None]> (_names h))));;
        mret _name
      else checkName_go fuel' requested (Some id')
  end.

(** [checkName(name)]: of the candidates [name], [name-0], [name-1], ...
    at most one per entry and one for the hook's own name are taken, which
    bounds the recursion. *)
Definition checkName (requested : string) : M string :=
  h ← self;
  checkName_go (S (S (size (_names h)))) requested None.

Definition set_client (n : string) (ty : value) (c : Client) : Client :=
  {| conn_id := conn_id c; remotePort := remotePort c;
     remoteAddress := remoteAddress c; c_message := c_message c;
     c_name := Some n; c_type := Some ty |}.

(** [this.report], hook.js 435-484: the client object as the handler
    leaves it.  For the name [__proto__], [self._names[client.name]] is the
    prototype [checkName] has just set: [report] fills it and
    [_registerEvents] counts in it, none of which is an own key of the
    registry; the reply and the client are as for any name. *)
Definition report (client : Client) (hook : Descriptor) : M Client :=
  n ← checkName (d_name hook);
  h ← self;
  (if String.eqb n "__proto__" then mret tt
   else
     match _names h !! n with
     | None => throw TypeError
     | Some reporter =>
         update (set_names (<[n :=
           Peer.mk (Peer.name reporter) (Some (d_type hook))
             (Some (conn_id client))
             (Some (remotePort client, remoteAddress client))
             (Some ∅)]> (_names h)));;
         _registerEvents n (d_events hook)
     end);;
  h' ← self;
  do (Reply [VStr n; VNull;
             VObj [("version", VStr (pkginfo_version h'))]]);;
  mret (set_client n (d_type hook) client).

(** [self._names[client.name]]: a name not yet set is the key
    [undefined]. *)
Definition client_key (client : Client) : string :=
  default "undefined" (c_name client).

(** [this.message], hook.js 486-493. *)
Definition server_message (client : Client) (event : string)
    (data callback : value) : M unit :=
  handled ← _addOrRemoveEvent (client_key client) event data;
  if (handled : bool) then mret tt else emit event data callback.

(** [this.hasEvent] of the server (495-497) and [hasEvent] of the object a
    client exports (630-632). *)
Definition rpc_hasEvent (parts remote : value) : M unit :=
  r ← hasEvent parts remote;
  do (Reply [VNull; r]).

(** [message] of the object a client exports, hook.js 627-629. *)
Definition client_message (event : string) (data callback : value) : M unit :=
  emit event data callback.

(** The [onAny] listener of a connection, hook.js 503-556, for
    [this.event]. *)
Definition broadcast (client : Client) (this_event : string) (data : value)
    (callback : callback) : M unit :=
  h ← self;
  let parts := split this_event in
  let event := this_event in
  if (c_message client &&
      bool_decide (head parts ≠ c_name client))%bool then
    let event := if bool_decide (length parts = 1%nat)
                 then name h +:+ DELIMITER +:+ event else event in
    do (ClientHasEvent (conn_id client) parts callback
          (OnHasEvent client event data callback))
  else mret tt.

(** The function [broadcast] gives to [client.hasEvent], called with
    [(err, send)]. *)
Definition broadcast_reply (client : Client) (event : string) (data : value)
    (callback : callback) (err send : value) : M unit :=
  if negb (truthy send) then mret tt
  else
    h ← self;
    forEach (transports h) (λ t, transport_message t event data callback);;
    do (ClientMessage (conn_id client) event data callback).

(** ** [connect]: the reply of [remote.report], hook.js 663-689 *)

Definition checkVersion (version : string) : M unit :=
  h ← self;
  if semver_neq version (pkginfo_version h) then
    throw (Error ("remote.version=" +:+ version +:+
                  " !== self.pkginfo.version=" +:+ pkginfo_version h))
  else mret tt.

Definition report_reply (callback : value) (newName : string) (newID : value)
    (version : string) : M unit :=
  update (set_name_id newName newID);;
  checkVersion version;;
  h ← self;
  emit "hook::connected" (hook_port h) VUndefined;;
  emit "hook::started" (hook_port h) VUndefined;;
  if truthy callback then apply callback [] else mret tt.

(** ** Conversations *)

(** The intercept and the answer it waits for, when the broker does nothing
    else in between: [reply] is what the client's [hasEvent] calls back
    with. *)
Definition intercept (reply : list string → value * value) (client : Client)
    (this_event : string) (data : value) (callback : callback) : M unit :=
  λ h,
    let r := broadcast client this_event data callback h in
    match calls r with
    | [ClientHasEvent _ parts _ (OnHasEvent c event d k)] =>
        let r' := broadcast_reply c event d k (reply parts).1 (reply parts).2
                    (final r) in
        Run (final r') (calls r ++ calls r') (outcome r')
    | _ => r
    end.

(** What the hook [peer] answers to [hasEvent(parts, remote, reply)]
    through the object it exports: the arguments of its [Reply]. *)
Definition hasEvent_reply (peer : Hook) (remote : value) (parts : list string)
    : value * value :=
  match last (calls (rpc_hasEvent (VArr (VStr <$> parts) []) remote peer)) with
  | Some (Reply [err; send]) => (err, send)
  | _ => (VUndefined, VUndefined)
  end.

(** One [report] after the other, each over its connection. *)
Fixpoint reports (ds : list (Client * Descriptor)) : M (list Client) :=
  match ds with
  | [] => mret []
  | (client, hook) :: ds' =>
      client' ← report client hook;
      clients ← reports ds';
      mret (client' :: clients)
  end.

(** ** Vocabulary of the properties *)

(** The events handed to the emitter's own [emit], in order. *)
Fixpoint emitted (cs : list call) : list string :=
  match cs with
  | [] => []
  | LocalEmit event _ _ :: cs' => event :: emitted cs'
  | _ :: cs' => emitted cs'
  end.

(** [listen] reports address-in-use: its callback gets an error whose
    [code] is the string EADDRINUSE. *)
Definition address_in_use (args : list value) : Prop :=
  ∃ err, args !! 0%nat = Some err ∧ truthy err = true ∧
         get_prop err "code" = Some (VStr "EADDRINUSE").

(** Every transport of the hook is one the module knows. *)
Definition transports_known (h : Hook) : Prop :=
  Forall (λ t, t_type t ∈ _transports) (transports h).

(** An object, array or function: what keeps a property it is given. *)
Definition is_object (v : value) : bool :=
  match v with VArr _ _ | VObj _ | VFun _ _ _ => true | _ => false end.

(** The [events] of an entry after one [removeListener] for [key]. *)
Definition after_remove (ev : gmap string Z) (key : string) : gmap string Z :=
  match ev !! key with
  | Some c =>
      if c =? 0 then ev
      else if c - 1 <=? 0 then delete key ev else <[key := c - 1]> ev
  | None => ev
  end.

(** The candidate [checkName (name, id)] tries first. *)
Definition index (id : option nat) : nat :=
  match id with Some i => S i | None => O end.

(** The names [checkName] tries, in order: the requested name, then the
    name with the suffixes -0, -1, ... *)
Definition candidate (requested : string) (k : nat) : string :=
  match k with
  | O => requested
  | S i => suffixed requested i
  end.

(** A name a client may get: no entry of the registry has it, and it is
    not the hook's own. *)
Definition free (h : Hook) (n : string) : Prop :=
  _names h !! n = None ∧ name h ≠ n.

#[global] Instance free_dec (h : Hook) (n : string) : Decision (free h n).
Proof. unfold free. apply _. Defined.

(** Each [report] of [ds], in its turn, gave its client ([cs], in the same
    order) the first candidate that was free in the hook as the reports
    before it had left it. *)
Fixpoint first_free_each (h : Hook) (ds : list (Client * Descriptor))
    (cs : list Client) : Prop :=
  match ds, cs with
  | [], [] => True
  | (client, hook) :: ds', client' :: cs' =>
      (∃ k : nat,
         c_name client' = Some (candidate (d_name hook) k) ∧
         free h (candidate (d_name hook) k) ∧
         ∀ j : nat, (j < k)%nat → ¬ free h (candidate (d_name hook) j)) ∧
      first_free_each (final (report client hook h)) ds' cs'
  | _, _ => False
  end.

(** What a client reports when its entry becomes an own key of the
    registry and its events are counted without any code of theirs being
    run: a name other than [__proto__], and events that are [printable]. *)
Definition reportable (hook : Descriptor) : Prop :=
  d_name hook ≠ "__proto__" ∧
  Forall (λ event, printable event = true) (d_events hook).

(** Every entry is stored under the name it holds. *)
Definition registry_wf (m : gmap string Peer.t) : Prop :=
  map_Forall (λ k r, Peer.name r = k) m.

(** The names the entries of the registry hold. *)
Definition stored_names (m : gmap string Peer.t) : list string :=
  Peer.name <$> (map_to_list m).*2.

End Runtime.

Arguments Run {Tree A} final calls outcome.
Arguments final {Tree A} r.
Arguments calls {Tree A} r.
Arguments outcome {Tree A} r.

(** ** More of [listen]: the handlers of the connection and of the server *)

Section Handlers.

Context {Tree : Type} {EE : EventEmitter2 Tree} {SV : Semver}.
Implicit Types h : Hook (Tree := Tree).

(** The handler of [conn.on('end')], hook.js 424-432: [keys] are the names
    of the registry in the order [for (name in self._names)] goes through
    them; the first entry of this session is reported and deleted. *)
Definition has_session h (conn : nat) (n : string) : Prop :=
  ∃ r, _names h !! n = Some r ∧ Peer.session r = Some conn.

#[global] Instance has_session_dec h (conn : nat) (n : string) :
  Decision (has_session h conn n).
Proof.
  unfold has_session.
  destruct (_names h !! n) as [r|] eqn:Hn.
  - destruct (decide (Peer.session r = Some conn)) as [Hs | Hs].
    + left. eauto.
    + right. intros (r' & Hr & Hs'). congruence.
  - right. intros (r' & Hr & _). discriminate.
Defined.

Definition conn_end (keys : list string) (conn : nat)
    : M (Tree := Tree) unit :=
  h ← self;
  match list_find (has_session h conn) keys with
  | Some (_, n) =>
      emit "hook::disconnected" (VStr n) VUndefined;;
      update (λ h' : Hook (Tree := Tree), set_names (delete n (_names h')) h')
  | None => mret tt
  end.

(** [err.code == 'EADDRINUSE'], with the conversions of [==]: an object
    is compared through its string; a number, a boolean, undefined and
    null never equal this string. *)
Definition loose_eq_EADDRINUSE (v : value) : bool :=
  match v with
  | VStr s => String.eqb s "EADDRINUSE"
  | VArr _ _ | VObj _ | VFun _ _ _ => String.eqb (ToString v) "EADDRINUSE"
  | _ => false
  end.

(** The handler of [self.server.on('error')], hook.js 559-572, called with
    [args]; [callback] is the function [listen] was given, as what it does
    with its arguments. *)
Definition server_error
    (callback : option (list value → M (Tree := Tree) unit))
    (args : list value) : M (Tree := Tree) unit :=
  let err := default VUndefined (args !! 0%nat) in
  (if truthy err then
     match get_prop err "code" with
     | None => throw TypeError
     | Some code =>
         if loose_eq_EADDRINUSE code then
           h ← self;
           emit "error::bind" (hook_port h) VUndefined;;
           update (set_server false)
         else emit "error::unknown" err VUndefined
     end
   else mret tt);;
  match callback with
  | Some k => k args
  | None => mret tt
  end.

(** ** More vocabulary *)

(** Every count of every entry is positive. *)
(** The events the switch of [_addOrRemoveEvent] knows. *)
Definition meta : list string :=
  ["newListener"; "removeListener"; "removeAllListeners"].

Definition counts_positive (m : gmap string Peer.t) : Prop :=
  ∀ n r ev k c,
    m !! n = Some r → Peer.events r = Some ev → ev !! k = Some c → 0 < c.

(** How often the key [k] is the key of one of [events]. *)
Fixpoint occurrences (k : string) (events : list value) : Z :=
  match events with
  | [] => 0
  | e :: events' =>
      (if String.eqb (ToString e) k then 1 else 0) + occurrences k events'
  end.

(** A string without a colon. *)
Fixpoint no_colon (s : string) : bool :=
  match s with
  | EmptyString => true
  | String a s' => (negb (Ascii.eqb a colon) && no_colon s')%bool
  end.

(** ** The wire between a client and its broker *)

(** What [self.remote.message] was called with, call by call. *)
Fixpoint upstream (cs : list call) : list (string * value * callback) :=
  match cs with
  | [] => []
  | RemoteMessage topic data cb :: cs' => (topic, data, cb) :: upstream cs'
  | _ :: cs' => upstream cs'
  end.

(** A callback as it arrives: dnode hands the other side a function of its
    own, [stub], for every function; anything else arrives as it is. *)
Definition wire (stub : value) (cb : callback) : value :=
  match cb with
  | Given f => if is_function f then stub else f
  | Synthesized _ _ => stub
  end.

(** The broker's [message] handler of the connection of [client], run on
    every message the calls [cs] of the client sent, in order. *)
Definition deliver (stub : value) (client : Client) (cs : list call)
    : M (Tree := Tree) unit :=
  forEach (upstream cs) (λ m,
    server_message client m.1.1 m.1.2 (wire stub m.2)).

End Handlers.

(** ** [getStringEvents], hook.js 702-715 *)

(** [currentPath.join(DELIMITER)] *)
Fixpoint join (l : list string) : string :=
  match l with
  | [] => ""
  | [x] => x
  | x :: l' => x +:+ DELIMITER +:+ join l'
  end.

(** The inner function, for a node of the listener tree: the paths it
    pushes, in order, or [None] for the TypeError of [Object.keys(null)].
    The properties of an object are gone through in the order of the list,
    which is the order of [Object.keys]; an array has its indices first.
    What is no object is left alone, and so is what [_listeners] holds. *)
Fixpoint getStringEvents_go (node : value) (currentPath : list string)
    {struct node} : option (list string) :=
  match node with
  | VNull => None
  | VObj ps =>
      (fix children (l : list (string * value)) : option (list string) :=
         match l with
         | [] => Some []
         | (child, v) :: l' =>
             if String.eqb child "_listeners" then
               rest ← children l';
               Some (join currentPath :: rest)
             else
               sub ← getStringEvents_go v (currentPath ++ [child]);
               rest ← children l';
               Some (sub ++ rest)
         end) ps
  | VArr es ps =>
      indexed ←
        (fix elements (i : nat) (l : list value) : option (list string) :=
           match l with
           | [] => Some []
           | v :: l' =>
               sub ← getStringEvents_go v (currentPath ++ [pretty i]);
               rest ← elements (S i) l';
               Some (sub ++ rest)
           end) O es;
      named ←
        (fix children (l : list (string * value)) : option (list string) :=
           match l with
           | [] => Some []
           | (child, v) :: l' =>
               if String.eqb child "_listeners" then
                 rest ← children l';
                 Some (join currentPath :: rest)
               else
                 sub ← getStringEvents_go v (currentPath ++ [child]);
                 rest ← children l';
                 Some (sub ++ rest)
           end) ps;
      Some (indexed ++ named)
  | _ => Some []
  end.

(** [typeof node === 'object'] *)
Definition typeof_object (v : value) : bool :=
  match v with VNull | VArr _ _ | VObj _ => true | _ => false end.

(** [getStringEvents()] for the tree [this.listenerTree]: the array of the
    paths, or undefined ([None]) when the tree is no object. *)
Definition getStringEvents (tree : value) : completion (option (list string)) :=
  if typeof_object tree then
    match getStringEvents_go tree [] with
    | Some paths => Normal (Some paths)
    | None => Thrown TypeError
    end
  else Normal None.

(** The keys of a node with what they hold, as [Object.keys] gives them. *)
Definition entries (node : value) : list (string * value) :=
  match node with
  | VObj ps => ps
  | VArr es ps => imap (λ i e, (pretty i, e)) es ++ ps
  | _ => []
  end.

(** From a node down a path of keys, none of them [_listeners]. *)
Inductive reaches : value → list string → value → Prop :=
  | reaches_here (v : value) : reaches v [] v
  | reaches_step (v : value) (k : string) (c : value) (p : list string)
      (w : value) :
      (k, c) ∈ entries v → k ≠ "_listeners" → reaches c p w →
      reaches v (k :: p) w.

(** The node has listeners. *)
Definition has_listeners (node : value) : Prop :=
  ∃ l, ("_listeners", l) ∈ entries node.

(** The first character is an underscore. *)
Definition starts_with_underscore (s : string) : bool :=
  match s with
  | String a _ => Ascii.eqb a (Ascii.Ascii true true true true true false true false)
  | EmptyString => false
  end.

(** The two loops of [getStringEvents_go], over the properties and over
    the elements of a node, with the function they call for a child. *)
Definition children_of (go : value → list string → option (list string))
    (currentPath : list string)
    : list (string * value) → option (list string) :=
  fix children (l : list (string * value)) : option (list string) :=
    match l with
    | [] => Some []
    | (child, v) :: l' =>
        if String.eqb child "_listeners" then
          rest ← children l';
          Some (join currentPath :: rest)
        else
          sub ← go v (currentPath ++ [child]);
          rest ← children l';
          Some (sub ++ rest)
    end.

Definition elements_of (go : value → list string → option (list string))
    (currentPath : list string) : nat → list value → option (list string) :=
  fix elements (i : nat) (l : list value) : option (list string) :=
    match l with
    | [] => Some []
    | v :: l' =>
        sub ← go v (currentPath ++ [pretty i]);
        rest ← elements (S i) l';
        Some (sub ++ rest)
    end.

(** What an enumeration of the node [v] under the path [cur] has to be:
    no result exactly when a null is reached, else the joined paths of the
    nodes with listeners. *)
Definition enumerates (v : value) (cur : list string)
    (res : option (list string)) : Prop :=
  match res with
  | None => ∃ p, reaches v p VNull
  | Some paths =>
      (∀ p, ¬ reaches v p VNull) ∧
      ∀ s, s ∈ paths ↔
           ∃ p w, reaches v p w ∧ has_listeners w ∧ s = join (cur ++ p)
  end.

(** The same for the keys [l] of a node. *)
Definition enumerates_keys (l : list (string * value)) (cur : list string)
    (res : option (list string)) : Prop :=
  match res with
  | None => ∃ k c p, (k, c) ∈ l ∧ k ≠ "_listeners" ∧ reaches c p VNull
  | Some paths =>
      (∀ k c p, (k, c) ∈ l → k ≠ "_listeners" → ¬ reaches c p VNull) ∧
      ∀ s, s ∈ paths ↔
           ((∃ v, ("_listeners", v) ∈ l) ∧ s = join cur) ∨
           (∃ k c p w, (k, c) ∈ l ∧ k ≠ "_listeners" ∧ reaches c p w ∧
                       has_listeners w ∧ s = join (cur ++ k :: p))
  end.

(** ** The handlers that enumerate the tree *)

Definition set_remote {Tree : Type} (b : bool) (h : Hook (Tree := Tree))
    : Hook (Tree := Tree) :=
  {| name := name h; type := type h; id := id h;
     pkginfo_version := pkginfo_version h;
     hook_port := hook_port h; remote := b; server := server h;
     _names := _names h; transports := transports h;
     listenerTree := listenerTree h |}.



(** [reportedData] of [connect], hook.js 656-661; [rd_events] is [None]
    when [getStringEvents] returned undefined. *)
Record Reported := {
  rd_name : string;
  rd_type : value;
  rd_version : string;
  rd_events : option (list string)
}.

(** The function [client.connect] is given, hook.js 641-662, up to the
    call of [remote.report], which gets what is returned here. *)
Definition connect_connected : M (Tree := value) Reported :=
  update (set_remote true);;
  h ← self;
  match getStringEvents (listenerTree h) with
  | Normal events =>
      mret {| rd_name := name h; rd_type := type h;
              rd_version := pkginfo_version h; rd_events := events |}
  | Thrown e => throw e
  | Diverges => diverge
  end.

(** What [report] reads of it on the other side. *)
Definition descriptor_of (rd : Reported) : option Descriptor :=
  events ← rd_events rd;
  Some {| d_name := rd_name rd; d_type := rd_type rd;
          d_events := VStr <$> events |}.

(** ** [isIP] and [toIPs], hook.js 809-828 *)

Module Regexp.

(** The regular expressions [ipRegexp] is made of: the empty word, a
    character, [.], a class of ranges, sequence, alternative, and
    [r{min,min+extra}] ([r?] is [r{0,1}]).  A group is the expression in
    it. *)
Inductive t :=
  | Eps
  | Chr (c : Ascii.ascii)
  | Dot
  | Cls (ranges : list (Ascii.ascii * Ascii.ascii))
  | Cat (r1 r2 : t)
  | Alt (r1 r2 : t)
  | Rep (min extra : nat) (r : t).

(** [.] matches any character but a line terminator. *)
Definition line_terminator (a : Ascii.ascii) : bool :=
  (N.eqb (Ascii.N_of_ascii a) 10 || N.eqb (Ascii.N_of_ascii a) 13)%bool.

Definition in_range (a : Ascii.ascii) (r : Ascii.ascii * Ascii.ascii) : bool :=
  (N.leb (Ascii.N_of_ascii r.1) (Ascii.N_of_ascii a) &&
   N.leb (Ascii.N_of_ascii a) (Ascii.N_of_ascii r.2))%bool.

(** One character of the input against a test. *)
Definition one (test : Ascii.ascii → bool) (s : string) : list string :=
  match s with
  | String a s' => if test a then [s'] else []
  | EmptyString => []
  end.

(** What can be left of [s] once a prefix of it has matched [r]: every
    way to match, as the backtracking of [RegExp.prototype.test] tries
    them. *)
Fixpoint residuals (r : t) (s : string) : list string :=
  match r with
  | Eps => [s]
  | Chr c => one (Ascii.eqb c) s
  | Dot => one (λ a, negb (line_terminator a)) s
  | Cls ranges => one (λ a, existsb (in_range a) ranges) s
  | Cat r1 r2 => flat_map (residuals r2) (residuals r1 s)
  | Alt r1 r2 => residuals r1 s ++ residuals r2 s
  | Rep min extra r1 =>
      (fix upto (n : nat) (l : list string) : list string :=
         match n with
         | O => l
         | S n' => l ++ upto n' (flat_map (residuals r1) l)
         end) extra
        (Nat.iter min (flat_map (residuals r1)) [s])
  end.

(** The first character of a string of one character. *)
Definition chr (s : string) : Ascii.ascii :=
  match s with String a _ => a | EmptyString => Ascii.zero end.

Fixpoint lit (s : string) : t :=
  match s with
  | EmptyString => Eps
  | String a EmptyString => Chr a
  | String a s' => Cat (Chr a) (lit s')
  end.

Fixpoint seq (l : list t) : t :=
  match l with
  | [] => Eps
  | [r] => r
  | r :: l' => Cat r (seq l')
  end.

Fixpoint alts (l : list t) : t :=
  match l with
  | [] => Cls []
  | [r] => r
  | r :: l' => Alt r (alts l')
  end.

Definition range (a b : string) : t := Cls [(chr a, chr b)].
Definition opt (r : t) : t := Rep 0 1 r.
Definition times (n : nat) (r : t) : t := Rep n 0 r.
Definition between (n m : nat) (r : t) : t := Rep n (m - n) r.

(** Some prefix of [s] matches [r]: the alternative under [^]. *)
Definition starts_with (r : t) (s : string) : bool :=
  match residuals r s with [] => false | _ :: _ => true end.

(** The whole of [s] matches [r]. *)
Definition matches (r : t) (s : string) : bool :=
  existsb (String.eqb "") (residuals r s).

Fixpoint suffixes (s : string) : list string :=
  match s with
  | EmptyString => [EmptyString]
  | String _ s' => s :: suffixes s'
  end.

(** Some suffix of [s] matches [r]: the alternative before [$]. *)
Definition ends_with (r : t) (s : string) : bool :=
  existsb (matches r) (suffixes s).

(** Whether every word of [r] has the character [c] in it, read off the
    shape of [r]. *)
Fixpoint needs (c : Ascii.ascii) (r : t) : bool :=
  match r with
  | Eps | Dot | Cls _ => false
  | Chr c' => Ascii.eqb c' c
  | Cat r1 r2 => (needs c r1 || needs c r2)%bool
  | Alt r1 r2 => (needs c r1 && needs c r2)%bool
  | Rep min _ r1 => (negb (min =? 0)%nat && needs c r1)%bool
  end.

(** [c] is a character of [s]. *)
Fixpoint occurs (c : Ascii.ascii) (s : string) : bool :=
  match s with
  | EmptyString => false
  | String a s' => (Ascii.eqb a c || occurs c s')%bool
  end.

(** Every element of [l], with [t] after it, is in [l']. *)
Definition lifts (t : string) (l l' : list string) : Prop :=
  ∀ u, In u l → In (u +:+ t) l'.

(** Every element of [l] is what is left of [s] after a word with [P]. *)
Definition after (s : string) (P : string → Prop) (l : list string) : Prop :=
  ∀ u, In u l → ∃ w, s = w +:+ u ∧ P w.

End Regexp.

Module Address.

Import Regexp.

(** [(25[0-5]|2[0-4][0-9]|[01]?[0-9][0-9]?)] *)
Definition octet : Regexp.t :=
  alts [seq [lit "25"; range "0" "5"];
        seq [lit "2"; range "0" "4"; range "0" "9"];
        seq [opt (range "0" "1"); range "0" "9"; opt (range "0" "9")]].

(** The first alternative of [ipRegexp], after [^]: four octets with [.],
    which is any character, between them. *)
Definition ipv4 : Regexp.t :=
  seq [octet; Dot; octet; Dot; octet; Dot; octet].

(** [[0-9A-Fa-f]] *)
Definition hex : Regexp.t :=
  Cls [(chr "0", chr "9"); (chr "A", chr "F"); (chr "a", chr "f")].

(** [[0-9A-Fa-f]{1,4}] and the same with its colon. *)
Definition h4 : Regexp.t := between 1 4 hex.

Definition h4c : Regexp.t := seq [h4; lit ":"].

(** [(b((25[0-5])|(1d{2})|(2[0-4]d)|(d{1,2}))b)]: [b] and [d] are the
    letters. *)
Definition bdb : Regexp.t :=
  seq [lit "b";
       alts [seq [lit "25"; range "0" "5"];
             seq [lit "1"; times 2 (lit "d")];
             seq [lit "2"; range "0" "4"; lit "d"];
             between 1 2 (lit "d")];
       lit "b"].

(** [((b(...)b).){3}(b(...)b)] *)
Definition dotted : Regexp.t := seq [times 3 (seq [bdb; Dot]); bdb].

(** The second alternative of [ipRegexp], before [$]: its twelve
    alternatives, in order. *)
Definition ipv6 : Regexp.t :=
  alts [seq [times 7 h4c; h4];
        seq [times 6 h4c; lit ":"; h4];
        seq [times 5 h4c; lit ":"; opt h4c; h4];
        seq [times 4 h4c; lit ":"; between 0 2 h4c; h4];
        seq [times 3 h4c; lit ":"; between 0 3 h4c; h4];
        seq [times 2 h4c; lit ":"; between 0 4 h4c; h4];
        seq [times 6 h4c; dotted];
        seq [between 0 5 h4c; lit ":"; dotted];
        seq [lit "::"; between 0 5 h4c; dotted];
        seq [h4; lit "::"; between 0 5 h4c; h4];
        seq [lit "::"; between 0 6 h4c; h4];
        seq [between 1 7 h4c; lit ":"]].

(** [isIP(text)]: [ipRegexp.test(text)], where [ipRegexp] is
    [^(ipv4)|(ipv6)$]: the [^] belongs to the first alternative and the
    [$] to the second. *)
Definition isIP (text : string) : bool :=
  (starts_with ipv4 text || ends_with ipv6 text)%bool.

(** [0] to [9] *)
Definition is_digit (a : Ascii.ascii) : bool :=
  in_range a (chr "0", chr "9").

(** [0] to [9], [A] to [F], [a] to [f] *)
Definition is_hex (a : Ascii.ascii) : bool :=
  existsb (in_range a) [(chr "0", chr "9"); (chr "A", chr "F"); (chr "a", chr "f")].

(** The first character of [s] is a digit. *)
Definition digit_first (s : string) : bool :=
  match s with String a _ => is_digit a | EmptyString => false end.

Fixpoint all_hex (s : string) : bool :=
  match s with
  | EmptyString => true
  | String a s' => (is_hex a && all_hex s')%bool
  end.

(** One to four hexadecimal digits. *)
Definition is_group (g : string) : bool :=
  (all_hex g && (1 <=? String.length g)%nat && (String.length g <=? 4)%nat)%bool.

(** What [toIPs] does with a host: ask [dns.resolve], or call back. *)
Inductive toIPs_step :=
  | DnsResolve (host : string)
  | CallBack (args : list value).

Definition toIPs (host : string) : toIPs_step :=
  if negb (isIP host) then DnsResolve host
  else CallBack [VNull; VArr [VStr host] []].

(** The function [toIPs] gives to [dns.resolve], with what it calls back;
    [hosts] is the array of addresses, read when there is no error.
    [! (hosts.length) > 0] holds for a length that is zero. *)
Definition toIPs_resolved (err : value) (hosts : list string) : list value :=
  if truthy err then [err]
  else if (length hosts =? 0)%nat then
    [VObj [("message",
            VStr ("Received invalid host list :" +:+
                  ToString (VArr (VStr <$> hosts) [])))]]
  else [VNull; VArr (VStr <$> hosts) []].

End Address.

(** ** [_cliOptions], hook.js 764-792 *)

Section CliOptions.

(** [JSON.stringify] *)
Variable stringify : value → value.

Definition reserved_cli : list string := ["port"; "host"; "name"; "type"].

(** The flag [_cliOptions] pushes for [key]. *)
Definition cli_flag (key : string) : string :=
  if bool_decide (key ∈ reserved_cli) then "--hook-" +:+ key else "--" +:+ key.

(** [options] are the own properties of the object, in the order of
    [Object.keys]; the result is the array [cli]. *)
Definition _cliOptions (options : list (string * value)) : list value :=
  flat_map (λ kv : string * value,
    let value := if typeof_object kv.2 then stringify kv.2 else kv.2 in
    [VStr (cli_flag kv.1); value]) options.

(** The elements of [cli] at the even places: the flags. *)
Fixpoint flags (cli : list value) : list value :=
  match cli with
  | flag :: _ :: cli' => flag :: flags cli'
  | _ => []
  end.

End CliOptions.

(** ** Concrete hooks, to run the definitions on *)

(** The emitter on which no listener was registered. *)
Definition NoListeners : EventEmitter2 unit :=
  {| ee_listeners := λ _ _, [];
     ee_off := λ t _ _, t;
     ee_removeAllListeners := λ t _, t |}.

(** [semver.neq] on plain MAJOR.MINOR.PATCH strings, where it is the
    inequality of the strings. *)
Definition PlainVersions : Semver :=
  {| semver_neq := λ a b, negb (String.eqb a b) |}.

(** A hook as its constructor leaves it. *)
Definition fresh (n : string) (version : string) : Hook (Tree := unit) :=
  {| name := n; type := VStr "hook"; id := VNum 0;
     pkginfo_version := version; hook_port := VNum 5000;
     remote := false; server := false; _names := ∅; transports := [];
     listenerTree := tt |}.

(** The broker [srv] once [listen] has resolved its host. *)
Definition srv : Hook (Tree := unit) :=
  final (listen_resolved (VStr "127.0.0.1") (fresh "srv" "1.2.3")).

(** A hook that [connect] has given a broker. *)
Definition connected (n : string) (version : string) : Hook (Tree := unit) :=
  {| name := n; type := VStr "hook"; id := VNum 0;
     pkginfo_version := version; hook_port := VNum 5000;
     remote := true; server := false; _names := ∅; transports := [];
     listenerTree := tt |}.

(** The [client] of connection [i] before its [report]. *)
Definition client_of (i : nat) : Client :=
  {| conn_id := i; remotePort := VNum (40000 + Z.of_nat i);
     remoteAddress := VStr "127.0.0.1"; c_message := true;
     c_name := None; c_type := None |}.

(** The client [worker] of connection 1, listening to [alpha::*], and the
    broker once it has answered the report. *)
Definition worker_reports : run (Tree := unit) Client :=
  report (client_of 1)
    {| d_name := "worker"; d_type := VStr "hook";
       d_events := [VStr "alpha::*"] |} srv.

Definition broker : Hook (Tree := unit) := final worker_reports.

Definition worker_client : Client :=
  default (client_of 1) (completion_value (outcome worker_reports)).

(** The broker after its own [on('alpha::*', fn)]: EventEmitter2 has
    emitted [newListener] through [emit]. *)
Definition broker_listening : Hook (Tree := unit) :=
  final (emit "newListener" (VStr "alpha::*") VUndefined broker).

Definition job_data : value := VObj [("v", VNum 1)].

(** The broker after the client took its listener off again. *)
Definition broker_after_off : Hook (Tree := unit) :=
  final (server_message worker_client "removeListener" (VStr "alpha::*")
           (VFun 1 "function (data) {}" []) broker).

(** Three reports in a row: a name twice, then the server's own. *)
Definition three_reports : list (Client * Descriptor) :=
  [(client_of 1, {| d_name := "worker"; d_type := VStr "hook";
                    d_events := [VStr "alpha::*"] |});
   (client_of 2, {| d_name := "worker"; d_type := VStr "hook";
                    d_events := [] |});
   (client_of 3, {| d_name := "srv"; d_type := VStr "hook";
                    d_events := [] |})].

(** Two clients that ask for the name [__proto__]. *)
Definition proto_reports : list (Client * Descriptor) :=
  [(client_of 1, {| d_name := "__proto__"; d_type := VStr "hook";
                    d_events := [VStr "alpha::*"] |});
   (client_of 2, {| d_name := "__proto__"; d_type := VStr "hook";
                    d_events := [] |})].

(** The entry of [worker] in [broker]. *)
Definition worker_entry : Peer.t :=
  Peer.mk "worker" (Some (VStr "hook")) (Some 1%nat)
    (Some (VNum 40001, VStr "127.0.0.1")) (Some {[ "alpha::*" := 1 ]}).

(** What [listen] calls back with when the port is taken, and with an
    error of another kind. *)
Definition port_taken : list value :=
  [VObj [("code", VStr "EADDRINUSE"); ("errno", VNum 98)]].

Definition host_unknown : list value :=
  [VObj [("code", VStr "ENOTFOUND")]].

Definition on_started : value := VFun 7 "function (err) {}" [].

Definition boom : value := VObj [("message", VStr "boom")].

(** The tree of an emitter with one listener, on [alpha::*]. *)
Definition listening_tree : value :=
  VObj [("alpha",
         VObj [("*", VObj [("_listeners", VFun 1 "function (data) {}" [])])])].

(** The entry of the broker [srv] in its own registry. *)
Definition srv_entry : Peer.t :=
  Peer.mk "srv" (Some (VStr "hook")) None
    (Some (VNum 5000, VStr "127.0.0.1")) (Some ∅).


(** A hook with that tree, before [connect]. *)
Definition subscriber : Hook (Tree := value) :=
  {| name := "worker"; type := VStr "hook"; id := VNum 0;
     pkginfo_version := "1.2.3"; hook_port := VNum 5000;
     remote := false; server := false; _names := ∅;
     transports := []; listenerTree := listening_tree |}.

(** A client of another connection, reported as [logger]. *)
Definition logger_client : Client :=
  set_client "logger" (VStr "hook") (client_of 2).

(** What dnode makes of a callback on the other side. *)
Definition dnode_stub : value := VFun 9 "[Function]" [].

Definition listener : value := VFun 1 "function (data) {}" [].

(** ** Properties *)

(** *** The definitions at work *)

Example split_qualified :
  split "worker::alpha::one" = ["worker"; "alpha"; "one"].
Proof. reflexivity. Qed.

Example split_local : split "alpha" = ["alpha"].
Proof. reflexivity. Qed.

Example split_odd_colons : split "a:::b" = ["a"; ":b"].
Proof. reflexivity. Qed.

Example ToString_array :
  ToString (VArr [VStr "a"; VNull; VNum (-12)] []) = "a,,-12".
Proof. reflexivity. Qed.

Example srv_registry :
  _names srv = {[ "srv" := Peer.mk "srv" (Some (VStr "hook")) None
                    (Some (VNum 5000, VStr "127.0.0.1")) (Some ∅) ]}.
Proof. reflexivity. Qed.

Example report_twice :
  let r1 := report (client_of 1) {| d_name := "worker"; d_type := VStr "w";
                                    d_events := [VStr "alpha::*"] |} srv in
  let r2 := report (client_of 2) {| d_name := "worker"; d_type := VStr "w";
                                    d_events := [] |} (final r1) in
  (c_name <$> completion_value (outcome r1),
   c_name <$> completion_value (outcome r2))
  = (Some (Some "worker"), Some (Some "worker-0")).
Proof. vm_compute. reflexivity. Qed.


Section Properties.

Context {Tree : Type} {EE : EventEmitter2 Tree} {SV : Semver}.
Implicit Types (h : Hook (Tree := Tree)) (client : Client).

(** *** Running a method body *)

Lemma run_eta {A} (r : run (Tree := Tree) A) :
  Run (final r) (calls r) (outcome r) = r.
Proof. destruct r; reflexivity. Qed.

Lemma bind_normal {A B} (m : M A) (k : A → M B) h h1 cs a :
  m h = Run h1 cs (Normal a) →
  (m ≫= k) h
  = Run (final (k a h1)) (cs ++ calls (k a h1)) (outcome (k a h1)).
Proof. intros Hm. unfold mbind, M_bind, bind. rewrite Hm. reflexivity. Qed.

Lemma bind_silent {A B} (m : M A) (k : A → M B) h h1 a :
  m h = Run h1 [] (Normal a) → (m ≫= k) h = k a h1.
Proof.
  intros Hm. rewrite (bind_normal _ _ _ _ _ _ Hm). apply run_eta.
Qed.

Lemma bind_outcome_normal {A B} (m : M A) (k : A → M B) h a :
  outcome (m h) = Normal a →
  (m ≫= k) h
  = Run (final (k a (final (m h))))
      (calls (m h) ++ calls (k a (final (m h))))
      (outcome (k a (final (m h)))).
Proof. intros Hm. unfold mbind, M_bind, bind. rewrite Hm. reflexivity. Qed.

Lemma bind_thrown {A B} (m : M A) (k : A → M B) h h1 cs e :
  m h = Run h1 cs (Thrown e) → (m ≫= k) h = Run h1 cs (Thrown e).
Proof. intros Hm. unfold mbind, M_bind, bind. rewrite Hm. reflexivity. Qed.

Lemma bind_self {B} (k : Hook → M B) h : (self ≫= k) h = k h h.
Proof. apply bind_silent. reflexivity. Qed.

Lemma forEach_cons {A} (x : A) (l : list A)
    (f : A → M (Tree := Tree) unit) :
  forEach (x :: l) f = (f x ;; forEach l f).
Proof. reflexivity. Qed.

Lemma strict_eq_str_spec v s : strict_eq_str v s = true ↔ v = VStr s.
Proof.
  destruct v; simpl; try (split; [discriminate | congruence]).
  rewrite String.eqb_eq. split; congruence.
Qed.

Lemma get_prop_truthy err k : truthy err = true → is_Some (get_prop err k).
Proof. destruct err; simpl; try discriminate; eauto. Qed.

Lemma start_listened_cases options callback args h :
  (address_in_use args ∧
   start_listened options callback args h
   = Run h [Connect options callback] (Normal tt)) ∨
  (¬ address_in_use args ∧
   start_listened options callback args h
   = (if truthy callback then apply callback args else mret tt) h).
Proof.
  unfold start_listened, address_in_use.
  destruct (args !! 0%nat) as [err|] eqn:Harg; simpl.
  - destruct (truthy err) eqn:Ht; simpl.
    + destruct (get_prop_truthy err "code" Ht) as [c Hc]. rewrite Hc. simpl.
      destruct (strict_eq_str c "EADDRINUSE") eqn:Hs.
      * apply strict_eq_str_spec in Hs. subst c. left. eauto.
      * right. split; [|reflexivity].
        intros (e & He & _ & Hc'). injection He as <-.
        rewrite Hc in Hc'. injection Hc' as ->. simpl in Hs.
        discriminate.
    + right. split; [|reflexivity].
      intros (e & He & Ht' & _). congruence.
  - right. split; [|reflexivity]. intros (e & He & _). discriminate.
Qed.

(** C8: [start] calls [listen] first, with the options it was given (the
    empty object when the only argument is the callback); the callback it
    gives to [listen] calls [connect], with these same options and the
    caller's callback, exactly when [listen] reports address-in-use; on
    anything else it does not connect and hands what [listen] reported to
    the caller's callback, when there is one. *)
Theorem C8_start_listen_then_connect h (options callback : value) :
  ∃ o c,
    start options callback h = Run h [Listen o (OnListen o c)] (Normal tt) ∧
    (truthy callback = true ∨ is_function options = false →
       o = options ∧ c = callback) ∧
    (truthy callback = false ∧ is_function options = true →
       o = VObj [] ∧ c = options) ∧
    ∀ args h',
      (address_in_use args →
         start_listened o c args h' = Run h' [Connect o c] (Normal tt)) ∧
      (∀ o' c', In (Connect o' c') (calls (start_listened o c args h')) →
         address_in_use args) ∧
      (¬ address_in_use args → is_function c = true →
         start_listened o c args h' = Run h' [Invoke c args] (Normal tt)).
Proof.
  unfold start.
  set (swap := (negb (truthy callback) && is_function options)%bool).
  exists (if swap then VObj [] else options), (if swap then options else callback).
  split; [reflexivity|]. split; [|split].
  - intros [Ht | Hf]; subst swap; [rewrite Ht | rewrite Hf, andb_false_r]; auto.
  - intros [Ht Hf]. subst swap. rewrite Ht, Hf. auto.
  - generalize (if swap then VObj [] else options)
               (if swap then options else callback).
    clear. intros o c args h'.
    destruct (start_listened_cases o c args h') as [[Ha ->] | [Hn ->]].
    + split; [reflexivity|]. split; [auto | tauto].
    + split; [tauto|]. unfold apply. split.
      * intros o' c'.
        destruct (truthy c), (is_function c); simpl;
          intros Hin; repeat destruct Hin as [Hin | Hin];
          try discriminate Hin; try contradiction.
      * intros _ Hf. rewrite Hf.
        destruct c; try discriminate. reflexivity.
Qed.

(** *** [hasEvent] *)

(** Asked with a string or an array, [hasEvent] answers with the array
    [listeners] gave it, which is no boolean and never falsy. *)
Lemma hasEvent_answers_array h (parts remote : value) :
  is_string parts = true ∨ is_array parts = true →
  hasEvent parts remote h
  = Run h [Listeners parts]
      (Normal (VArr (ee_listeners (listenerTree h) parts) [])).
Proof.
  intros Hp. unfold hasEvent.
  destruct Hp as [Hp | Hp]; rewrite Hp; simpl; [|rewrite andb_false_r];
    reflexivity.
Qed.

(** C9: asked with something that is neither a string nor an array,
    [hasEvent] returns [false] and makes no call at all, so none to
    [listeners]; the RPC handler then replies [(null, false)] and does not
    throw. *)
Theorem C9_hasEvent_malformed_parts h (parts remote : value) :
  is_string parts = false →
  is_array parts = false →
  hasEvent parts remote h = Run h [] (Normal (VBool false)) ∧
  rpc_hasEvent parts remote h
  = Run h [Reply [VNull; VBool false]] (Normal tt).
Proof.
  intros Hs Ha. unfold rpc_hasEvent, hasEvent. rewrite Hs, Ha. simpl.
  split; reflexivity.
Qed.

(** *** The broadcast intercept *)

Lemma broadcast_skips h client ev data cb :
  c_message client = false ∨ head (split ev) = c_name client →
  broadcast client ev data cb h = Run h [] (Normal tt).
Proof.
  intros Hc. unfold broadcast.
  destruct Hc as [Hc | Hc].
  - rewrite Hc. reflexivity.
  - rewrite (bool_decide_eq_false_2 _ (λ Hne, Hne Hc)), andb_false_r.
    reflexivity.
Qed.

(** A reply of [hasEvent] that is falsy ends the conversation: no
    transport and no client gets the message. *)
Lemma broadcast_reply_falsy h client ev data cb (err send : value) :
  truthy send = false →
  broadcast_reply client ev data cb err send h = Run h [] (Normal tt).
Proof. intros Hs. unfold broadcast_reply. rewrite Hs. reflexivity. Qed.

(** C5: when the first segment of the emitted topic is the name the broker
    registered for a client, the intercept of that client's connection
    makes no call whatever the client would answer: no [hasEvent] question
    and no [message]. *)
Theorem C5_no_echo_to_origin h client (n ev : string) (data : value)
    (cb : callback) (reply : list string → value * value) :
  c_name client = Some n →
  head (split ev) = Some n →
  broadcast client ev data cb h = Run h [] (Normal tt) ∧
  intercept reply client ev data cb h = Run h [] (Normal tt).
Proof.
  intros Hn Hh.
  assert (broadcast client ev data cb h = Run h [] (Normal tt)) as Hb.
  { apply broadcast_skips. right. congruence. }
  split; [exact Hb|]. unfold intercept. rewrite Hb. reflexivity.
Qed.

(** *** [emit] *)

Lemma emitted_app (cs cs' : list call) :
  emitted (cs ++ cs') = emitted cs ++ emitted cs'.
Proof.
  induction cs as [|c cs IH]; [reflexivity|].
  destruct c; simpl; rewrite IH; reflexivity.
Qed.

Lemma forEach_transports h (ts : list transport) topic data cb :
  Forall (λ t, t_type t ∈ _transports) ts →
  forEach ts (λ t, transport_message t topic data cb) h
  = Run h ((λ t, TransportMessage (t_type t) (t_options t) topic data cb)
             <$> ts) (Normal tt).
Proof.
  induction 1 as [|t ts Ht _ IH]; [reflexivity|].
  assert (transport_message t topic data cb h
          = Run h [TransportMessage (t_type t) (t_options t) topic data cb]
              (Normal tt)) as Hm.
  { unfold transport_message. rewrite (bool_decide_eq_true_2 _ Ht).
    reflexivity. }
  rewrite forEach_cons, (bind_normal _ _ _ _ _ _ Hm), IH. reflexivity.
Qed.

Lemma emitted_transports (ts : list transport) topic data cb :
  emitted ((λ t, TransportMessage (t_type t) (t_options t) topic data cb)
             <$> ts) = [].
Proof. induction ts; [reflexivity | assumption]. Qed.

(** What [emit] does with an event that is not reserved: log, every
    transport, the broker if there is one, then the emitter; the callback
    is the caller's if it is a function, else the synthesized one. *)
Lemma emit_ordinary h (event : string) (data callback : value) :
  event ∉ reserved →
  transports_known h →
  let data' := if is_function data then VNull else data in
  let callback' := if is_function data then data else callback in
  let cb := if is_function callback' then Given callback'
            else Synthesized event data' in
  emit event data callback h
  = Run h
      (Log event data ::
       ((λ t, TransportMessage (t_type t) (t_options t)
                ("undefined" +:+ DELIMITER +:+ event) data' cb)
          <$> transports h) ++
       (if remote h
        then [RemoteMessage (name h +:+ DELIMITER +:+ event) data' cb]
        else []) ++
       [LocalEmit event data' cb])
      (Normal tt).
Proof.
  intros Hr Hk. unfold emit. rewrite (bool_decide_eq_false_2 _ Hr).
  erewrite bind_normal by reflexivity. rewrite bind_self.
  erewrite bind_normal by (apply forEach_transports; exact Hk).
  destruct (remote h); reflexivity.
Qed.

Lemma emit_ordinary_emitted h (event : string) (data callback : value) :
  event ∉ reserved →
  transports_known h →
  final (emit event data callback h) = h ∧
  outcome (emit event data callback h) = Normal tt ∧
  emitted (calls (emit event data callback h)) = [event].
Proof.
  intros Hr Hk. rewrite (emit_ordinary h event data callback Hr Hk). simpl.
  rewrite emitted_app, emitted_transports, emitted_app.
  destruct (remote h); auto.
Qed.

(** *** The intercept and the answer of the peer *)

(** The answer of a peer through its exported [hasEvent] is the array of
    its matching listeners, whatever they are. *)
Lemma hasEvent_reply_array (peer : Hook (Tree := Tree)) (remote : value)
    (parts : list string) :
  hasEvent_reply peer remote parts
  = (VNull,
     VArr (ee_listeners (listenerTree peer) (VArr (VStr <$> parts) [])) []).
Proof.
  unfold hasEvent_reply, rpc_hasEvent.
  rewrite (bind_normal _ _ _ _ _ _
             (hasEvent_answers_array peer (VArr (VStr <$> parts) []) remote
                (or_intror eq_refl))).
  reflexivity.
Qed.

(** So the intercept of a connection whose client is not the origin sends
    the message, whether or not the peer has a listener for it. *)
Lemma intercept_sends_regardless h (peer : Hook (Tree := Tree)) client
    (ev : string) (data remote : value) (cb : callback) :
  c_message client = true →
  head (split ev) ≠ c_name client →
  transports_known h →
  ∃ topic,
    last (calls (intercept (hasEvent_reply peer remote) client ev data cb h))
    = Some (ClientMessage (conn_id client) topic data cb).
Proof.
  intros Hm Hne Hk. unfold intercept, broadcast.
  rewrite bind_self, Hm, (bool_decide_eq_true_2 _ Hne).
  cbn [andb calls do final outcome].
  rewrite hasEvent_reply_array. cbn [fst snd].
  unfold broadcast_reply. cbn [truthy negb]. rewrite bind_self.
  eexists.
  rewrite (bind_normal _ _ _ _ _ _ (forEach_transports h _ _ _ _ Hk)).
  cbn [calls do]. rewrite !app_assoc. apply last_snoc.
Qed.

(** *** The synthesized callback *)

Ltac suffix_mismatch H event :=
  repeat (destruct event as [|? event];
          cbv [String.append] in H; fold String.append in H;
          first [discriminate H | injection H as _ H]).

Lemma error_not_reserved (event : string) : event +:+ "::error" ∉ reserved.
Proof.
  intros Hin. unfold reserved in Hin.
  repeat (apply elem_of_cons in Hin as [Hin | Hin]);
    [suffix_mismatch Hin event .. | apply elem_of_nil in Hin; exact Hin].
Qed.

Lemma result_not_reserved (event : string) : event +:+ "::result" ∉ reserved.
Proof.
  intros Hin. unfold reserved in Hin.
  repeat (apply elem_of_cons in Hin as [Hin | Hin]);
    [suffix_mismatch Hin event .. | apply elem_of_nil in Hin; exact Hin].
Qed.

Lemma assoc_get_set (k : string) (v : value) (l : list (string * value)) :
  assoc_get k (assoc_set k v l) = Some v.
Proof.
  induction l as [|[k' v'] l IH]; simpl.
  - rewrite String.eqb_refl. reflexivity.
  - destruct (String.eqb k k') eqn:Hk; simpl.
    + rewrite String.eqb_refl. reflexivity.
    + rewrite Hk. exact IH.
Qed.

(** X1: called with an error that is truthy, the synthesized callback is
    one call of [emit], for the event with the suffix [::error]; an error
    that is an object carries the original data as [ctx]. *)
Lemma synthesized_callback_error h (event : string)
    (data err result : value) :
  truthy err = true →
  ∃ err',
    set_prop err "ctx" data = Some err' ∧
    (is_object err = true → get_prop err' "ctx" = Some data) ∧
    synthesized_callback event data err result h
    = emit (event +:+ "::error") err' VUndefined h ∧
    (transports_known h →
     emitted (calls (synthesized_callback event data err result h))
     = [event +:+ "::error"]).
Proof.
  intros Ht. unfold synthesized_callback. rewrite Ht.
  assert (∃ err', set_prop err "ctx" data = Some err' ∧
                  (is_object err = true → get_prop err' "ctx" = Some data))
    as (err' & Hs & Hg).
  { destruct err; try discriminate; simpl; eexists;
      (split; [reflexivity|]); try discriminate;
      intros _; simpl; rewrite assoc_get_set; reflexivity. }
  exists err'. rewrite Hs. split; [reflexivity|]. split; [exact Hg|].
  split; [reflexivity|]. intros Hk.
  apply emit_ordinary_emitted; [apply error_not_reserved | exact Hk].
Qed.

(** Called without an error and with a result that is not undefined or
    null, it is one call of [emit], for the event with the suffix
    [::result]. *)
Lemma synthesized_callback_result h (event : string)
    (data err result : value) :
  truthy err = false →
  result ≠ VUndefined → result ≠ VNull →
  ∃ result',
    set_prop result "ctx" data = Some result' ∧
    (is_object result = true → get_prop result' "ctx" = Some data) ∧
    synthesized_callback event data err result h
    = emit (event +:+ "::result") result' VUndefined h ∧
    (transports_known h →
     emitted (calls (synthesized_callback event data err result h))
     = [event +:+ "::result"]).
Proof.
  intros Ht Hu Hn. unfold synthesized_callback. rewrite Ht.
  assert (∃ r', set_prop result "ctx" data = Some r' ∧
                (is_object result = true → get_prop r' "ctx" = Some data))
    as (r' & Hs & Hg).
  { destruct result; try congruence; simpl; eexists;
      (split; [reflexivity|]); try discriminate;
      intros _; simpl; rewrite assoc_get_set; reflexivity. }
  exists r'. rewrite Hs. split; [reflexivity|]. split; [exact Hg|].
  split; [reflexivity|]. intros Hk.
  apply emit_ordinary_emitted; [apply result_not_reserved | exact Hk].
Qed.

(** Called without an error and without a result, it throws before any
    call. *)
Lemma synthesized_callback_no_result h (event : string)
    (data err result : value) :
  truthy err = false →
  result = VUndefined ∨ result = VNull →
  synthesized_callback event data err result h = Run h [] (Thrown TypeError).
Proof.
  intros Ht Hr. unfold synthesized_callback. rewrite Ht.
  destruct Hr as [-> | ->]; reflexivity.
Qed.

(** *** [connect] *)

Lemma lifecycle_not_reserved :
  ("hook::connected" ∉ reserved) ∧ ("hook::started" ∉ reserved).
Proof.
  split; apply (bool_decide_eq_false_1 (_ ∈ reserved)); reflexivity.
Qed.

(** C7: when [semver.neq] holds between the version the server reported
    and the hook's own, the reply of [report] throws the version error
    right after it adopted the name and the id, with no call made, so no
    [hook::connected]; when it does not hold, [hook::connected] and then
    [hook::started] are the events emitted, and the reply ends normally
    when the caller's callback is a function or was left out. *)
Theorem C7_connect_checks_version h (callback : value) (newName : string)
    (newID : value) (version : string) :
  (semver_neq version (pkginfo_version h) = true →
     report_reply callback newName newID version h
     = Run (set_name_id newName newID h) []
         (Thrown (Error ("remote.version=" +:+ version +:+
                         " !== self.pkginfo.version=" +:+
                         pkginfo_version h)))) ∧
  (semver_neq version (pkginfo_version h) = false →
     transports_known h →
     let r := report_reply callback newName newID version h in
     emitted (calls r) = ["hook::connected"; "hook::started"] ∧
     (is_function callback = true ∨ truthy callback = false →
      outcome r = Normal tt)).
Proof.
  split.
  - intros Hv. unfold report_reply.
    rewrite (bind_silent _ _ h (set_name_id newName newID h) tt)
      by reflexivity.
    apply bind_thrown. unfold checkVersion. rewrite bind_self. simpl.
    rewrite Hv. reflexivity.
  - intros Hv Hk r. subst r.
    destruct lifecycle_not_reserved as [Hc Hs].
    set (h1 := set_name_id newName newID h).
    assert (transports_known h1) as Hk1 by exact Hk.
    destruct (emit_ordinary_emitted h1 "hook::connected" (hook_port h1)
                VUndefined Hc Hk1) as (Hf1 & Ho1 & He1).
    destruct (emit_ordinary_emitted h1 "hook::started" (hook_port h1)
                VUndefined Hs Hk1) as (Hf2 & Ho2 & He2).
    assert (checkVersion version h1 = Run h1 [] (Normal tt)) as Hcv.
    { unfold checkVersion. rewrite bind_self. simpl. rewrite Hv.
      reflexivity. }
    unfold report_reply.
    rewrite (bind_silent _ _ h h1 tt) by reflexivity.
    rewrite (bind_silent _ _ h1 h1 tt) by exact Hcv.
    rewrite bind_self.
    rewrite (bind_outcome_normal _ _ _ _ Ho1), Hf1.
    rewrite (bind_outcome_normal _ _ _ _ Ho2), Hf2.
    cbn [calls outcome]. rewrite !emitted_app, He1, He2.
    unfold apply.
    split.
    + destruct (truthy callback), (is_function callback); reflexivity.
    + intros [Hf | Ht]; [rewrite Hf | rewrite Ht].
      * destruct (truthy callback); reflexivity.
      * reflexivity.
Qed.

(** *** The registry *)

Lemma set_events_same (r : Peer.t) ev :
  Peer.events r = Some ev → Peer.set_events ev r = r.
Proof. destruct r; simpl; intros ->; reflexivity. Qed.

Lemma set_names_same h : set_names (_names h) h = h.
Proof. destruct h; reflexivity. Qed.

Lemma registry_untouched h (n : string) (r : Peer.t) ev :
  _names h !! n = Some r → Peer.events r = Some ev →
  set_names (<[n := Peer.set_events ev r]> (_names h)) h = h.
Proof.
  intros Hn He. rewrite (set_events_same _ _ He), (insert_id _ _ _ Hn).
  apply set_names_same.
Qed.

Lemma addOrRemove_newListener h (n : string) r ev (data : value) :
  _names h !! n = Some r → Peer.events r = Some ev →
  _addOrRemoveEvent n "newListener" data h
  = Run (set_names (<[n := Peer.set_events
           (<[ToString data := count_or_zero ev (ToString data) + 1]> ev) r]>
           (_names h)) h) [] (Normal true).
Proof.
  intros Hn He. unfold _addOrRemoveEvent. rewrite bind_self, Hn. simpl.
  rewrite He. reflexivity.
Qed.

Lemma addOrRemove_removeListener h (n : string) r ev (data : value) :
  _names h !! n = Some r → Peer.events r = Some ev →
  _addOrRemoveEvent n "removeListener" data h
  = Run (set_names (<[n := Peer.set_events
           (after_remove ev (ToString data)) r]> (_names h)) h)
      [] (Normal true).
Proof.
  intros Hn He. unfold _addOrRemoveEvent, after_remove.
  rewrite bind_self, Hn. simpl. rewrite He.
  destruct (ev !! ToString data) as [c|] eqn:Hc.
  - destruct (c =? 0); [|destruct (c - 1 <=? 0)]; try reflexivity.
    rewrite (registry_untouched h n r ev Hn He). reflexivity.
  - rewrite (registry_untouched h n r ev Hn He). reflexivity.
Qed.

(** The registry operation of kind [removeAllListeners] deletes the
    key of the topic from the events of that entry, and of no other. *)
Lemma addOrRemove_removeAllListeners h (n : string) r ev (data : value) :
  _names h !! n = Some r → Peer.events r = Some ev →
  _addOrRemoveEvent n "removeAllListeners" data h
  = Run (set_names (<[n := Peer.set_events (delete (ToString data) ev) r]>
           (_names h)) h) [] (Normal true).
Proof.
  intros Hn He. unfold _addOrRemoveEvent. rewrite bind_self, Hn. simpl.
  rewrite He. reflexivity.
Qed.

(** An event that is none of the three the switch knows changes nothing
    and is not handled. *)
Lemma addOrRemove_unknown h (n event : string) (data : value) :
  event ≠ "newListener" → event ≠ "removeListener" →
  event ≠ "removeAllListeners" →
  _addOrRemoveEvent n event data h
  = Run h [] (match _names h !! n with
              | Some _ => Normal false
              | None => Thrown TypeError
              end).
Proof.
  intros H1 H2 H3. unfold _addOrRemoveEvent. rewrite bind_self.
  destruct (_names h !! n); [|reflexivity].
  apply String.eqb_neq in H1, H2, H3. rewrite H1, H2, H3. reflexivity.
Qed.

(** C10: a [newListener] or [removeListener] a registered client sends
    through [message] is answered without any call leaving the handler (no
    emission on the broker, no transport, no question or message to a
    client), and the handler returns; the hook changes in the [events] of
    that client's entry only.  The data is [printable]: no code of its own
    runs when it is made the key. *)
Theorem C10_meta_message_updates_registry_only h client (n : string)
    (r : Peer.t) (ev : gmap string Z) (event : string)
    (data callback : value) :
  c_name client = Some n →
  _names h !! n = Some r →
  Peer.events r = Some ev →
  event = "newListener" ∨ event = "removeListener" →
  printable data = true →
  ∃ ev',
    server_message client event data callback h
    = Run (set_names (<[n := Peer.set_events ev' r]> (_names h)) h) []
        (Normal tt).
Proof.
  intros Hc Hn He Hev _. unfold server_message, client_key. rewrite Hc. simpl.
  destruct Hev as [-> | ->].
  - exists (<[ToString data := count_or_zero ev (ToString data) + 1]> ev).
    rewrite (bind_silent _ _ _ _ _ (addOrRemove_newListener h n r ev data Hn He)).
    reflexivity.
  - exists (after_remove ev (ToString data)).
    rewrite (bind_silent _ _ _ _ _
               (addOrRemove_removeListener h n r ev data Hn He)).
    reflexivity.
Qed.

(** *** [removeAllListeners] *)

(** The event [removeAllListeners] emits is spelled [remoteAllListeners];
    the switch of [_addOrRemoveEvent] has no case of that name, so the
    emission leaves the hook as it was. *)
Lemma remoteAllListeners_reserved : "remoteAllListeners" ∈ reserved.
Proof. apply (bool_decide_unpack _). reflexivity. Qed.

Lemma emit_remoteAllListeners_final h (data callback : value) :
  final (emit "remoteAllListeners" data callback h) = h.
Proof.
  unfold emit.
  rewrite (bool_decide_eq_true_2 _ remoteAllListeners_reserved), bind_self.
  destruct (remote h).
  - reflexivity.
  - destruct (server h); [|reflexivity].
    assert (_addOrRemoveEvent (name h) "remoteAllListeners" data h
            = Run h [] (match _names h !! name h with
                        | Some _ => Normal false
                        | None => Thrown TypeError
                        end)) as Ha
      by (apply addOrRemove_unknown; discriminate).
    unfold mbind, M_bind, bind at 1 2. rewrite Ha.
    destruct (_names h !! name h); reflexivity.
Qed.

Lemma removeAllListeners_keeps_registry h (type : value) :
  _names (final (removeAllListeners type h)) = _names h.
Proof.
  unfold removeAllListeners.
  rewrite (bind_normal _ _ h h [RemoveAllListeners type] tt) by reflexivity.
  cbn [final].
  rewrite (bind_silent _ _ h
             (set_tree (ee_removeAllListeners (listenerTree h) type) h) tt)
    by reflexivity.
  rewrite emit_remoteAllListeners_final. reflexivity.
Qed.

Lemma server_message_remoteAllListeners h client (data callback : value) :
  _names (final (server_message client "remoteAllListeners" data callback h))
  = _names h.
Proof.
  unfold server_message.
  assert (_addOrRemoveEvent (client_key client) "remoteAllListeners" data h
          = Run h [] (match _names h !! client_key client with
                      | Some _ => Normal false
                      | None => Thrown TypeError
                      end)) as Ha
    by (apply addOrRemove_unknown; discriminate).
  destruct (_names h !! client_key client).
  - rewrite (bind_silent _ _ _ _ _ Ha).
    rewrite emit_remoteAllListeners_final. reflexivity.
  - rewrite (bind_thrown _ _ _ _ _ _ Ha). reflexivity.
Qed.

(** *** [checkName] *)

Lemma string_app_empty_r (s : string) : s +:+ "" = s.
Proof.
  induction s as [|a s IH]; [reflexivity|].
  change (String a (s +:+ "") = String a s). rewrite IH. reflexivity.
Qed.

Lemma candidate_inj (requested : string) : Inj (=) (=) (candidate requested).
Proof.
  assert (∀ i, requested ≠ suffixed requested i) as Hne.
  { intros i Heq. unfold suffixed in Heq.
    rewrite <- (string_app_empty_r requested) in Heq at 1.
    apply (inj (String.app requested)) in Heq. discriminate. }
  intros [|i] [|j] Heq; simpl in Heq.
  - reflexivity.
  - destruct (Hne _ Heq).
  - destruct (Hne _ (eq_sym Heq)).
  - unfold suffixed in Heq.
    apply (inj (String.app requested)) in Heq.
    apply (inj (String.app "-")) in Heq.
    apply (inj pretty) in Heq. congruence.
Qed.

(** A name with a suffix is never [__proto__], which has no hyphen. *)
Lemma occurs_hyphen (s t : string) :
  Regexp.occurs (Regexp.chr "-") (s +:+ String (Regexp.chr "-") t) = true.
Proof.
  induction s as [|a s IH]; [reflexivity|].
  change (Regexp.occurs (Regexp.chr "-")
            (String a (s +:+ String (Regexp.chr "-") t)) = true).
  cbn [Regexp.occurs]. rewrite IH. apply orb_true_r.
Qed.

Lemma candidate_not_proto (requested : string) (k : nat) :
  requested ≠ "__proto__" → candidate requested k ≠ "__proto__".
Proof.
  intros Hr. destruct k as [|i]; [exact Hr|].
  intros Heq. pose proof (occurs_hyphen requested (pretty i)) as Ho.
  change (requested +:+ String (Regexp.chr "-") (pretty i))
    with (candidate requested (S i)) in Ho.
  rewrite Heq in Ho. discriminate Ho.
Qed.

(** Among the first [size + 2] candidates one is free: the taken names are
    the keys of the registry and the hook's own name. *)
Lemma candidates_not_all_taken h (requested : string) :
  ¬ Forall (λ k, ¬ free h (candidate requested k))
      (seq 0 (S (S (size (_names h))))).
Proof.
  intros Hall.
  set (n := size (_names h)) in *.
  set (cands := candidate requested <$> seq 0 (S (S n))).
  assert (NoDup cands) as Hnd.
  { apply NoDup_fmap_2_strong; [|apply NoDup_seq].
    intros x y _ _. apply candidate_inj. }
  assert (list_to_set cands ⊆@{gset string} {[name h]} ∪ dom (_names h))
    as Hsub.
  { intros s Hs. apply elem_of_list_to_set, list_elem_of_fmap in Hs.
    destruct Hs as (k & -> & Hk).
    rewrite Forall_forall in Hall. specialize (Hall k Hk).
    apply elem_of_union. rewrite elem_of_singleton, elem_of_dom.
    unfold free in Hall.
    destruct (_names h !! candidate requested k) eqn:Hl; [right; eauto|].
    left. destruct (decide (name h = candidate requested k)); [congruence|].
    destruct Hall. auto. }
  apply subseteq_size in Hsub.
  rewrite size_list_to_set in Hsub by exact Hnd.
  unfold cands in Hsub. rewrite length_fmap, length_seq in Hsub.
  assert (size ({[name h]} ∪ dom (_names h) : gset string) ≤ S n)%nat.
  { rewrite size_union_alt, size_singleton.
    assert (size (dom (_names h) ∖ {[name h]} : gset string)
            ≤ size (dom (_names h)))%nat as Hd
      by (apply subseteq_size, subseteq_difference_l; reflexivity).
    rewrite size_dom in Hd. unfold n. lia. }
  lia.
Qed.

Lemma first_free h (requested : string) :
  ∃ k, (k ≤ S (size (_names h)))%nat ∧
       free h (candidate requested k) ∧
       ∀ j, (j < k)%nat → ¬ free h (candidate requested j).
Proof.
  destruct (list_find (λ k, free h (candidate requested k))
              (seq 0 (S (S (size (_names h)))))) as [[i k]|] eqn:Hf.
  - apply list_find_Some in Hf as (Hi & Hk & Hlt).
    apply lookup_seq in Hi as [-> Hi]. change (0 + i)%nat with i in Hk.
    exists i. split; [lia|]. split; [exact Hk|].
    intros j Hj. apply (Hlt j j); [|exact Hj].
    apply lookup_seq. split; [reflexivity | lia].
  - apply list_find_None in Hf.
    destruct (candidates_not_all_taken h requested Hf).
Qed.

Lemma checkName_go_finds (requested : string) (fuel : nat) :
  ∀ (id : option nat) h (k : nat),
    (index id ≤ k)%nat →
    (k - index id < fuel)%nat →
    free h (candidate requested k) →
    (∀ j, (index id ≤ j < k)%nat → ¬ free h (candidate requested j)) →
    candidate requested k ≠ "__proto__" →
    checkName_go fuel requested id h
    = Run (set_names
             (<[candidate requested k :=
                  Peer.mk (candidate requested k) None None None None]>
                (_names h)) h)
        [] (Normal (candidate requested k)).
Proof.
  induction fuel as [|fuel IH]; intros id h k Hle Hfuel Hfree Htaken Hp; [lia|].
  assert ((match id with
           | Some i => suffixed requested i
           | None => requested
           end) = candidate requested (index id)) as Hname
    by (destruct id; reflexivity).
  cbn [checkName_go]. rewrite Hname, bind_self.
  destruct (decide (k = index id)) as [-> | Hne].
  - destruct Hfree as [Hnone Hown].
    rewrite (bool_decide_eq_true_2 _ Hnone), (bool_decide_eq_true_2 _ Hown).
    apply String.eqb_neq in Hp. cbn [andb]. rewrite Hp. reflexivity.
  - assert (¬ free h (candidate requested (index id))) as Hnot
      by (apply Htaken; lia).
    assert ((bool_decide (_names h !! candidate requested (index id) = None)
             && bool_decide (name h ≠ candidate requested (index id)))%bool
            = false) as ->.
    { apply andb_false_iff.
      destruct (decide (_names h !! candidate requested (index id) = None));
        [right | left; apply bool_decide_eq_false_2; assumption].
      apply bool_decide_eq_false_2. intros Hown. apply Hnot. split; auto. }
    assert (index (Some (match id with Some i => S i | None => O end))
            = S (index id)) as Hidx by (destruct id; reflexivity).
    apply IH; rewrite ?Hidx; [lia | lia | exact Hfree | | exact Hp].
    intros j Hj. apply Htaken. lia.
Qed.

(** [checkName] returns, and what it returns is the first candidate that
    is free; it enters the registry under that name. *)
Lemma checkName_first_free h (requested : string) :
  requested ≠ "__proto__" →
  ∃ k, free h (candidate requested k) ∧
       (∀ j, (j < k)%nat → ¬ free h (candidate requested j)) ∧
       checkName requested h
       = Run (set_names
                (<[candidate requested k :=
                     Peer.mk (candidate requested k) None None None None]>
                   (_names h)) h)
           [] (Normal (candidate requested k)).
Proof.
  intros Hp.
  destruct (first_free h requested) as (k & Hk & Hfree & Hleast).
  exists k. split; [exact Hfree|]. split; [exact Hleast|].
  unfold checkName. rewrite bind_self.
  apply checkName_go_finds; simpl;
    [lia | lia | exact Hfree | | apply candidate_not_proto, Hp].
  intros j Hj. apply Hleast. lia.
Qed.

(** *** [report] *)

Lemma set_names_set_names h (m m' : gmap string Peer.t) :
  set_names m' (set_names m h) = set_names m' h.
Proof. reflexivity. Qed.

Lemma registerEvents_entry (n : string) (events : list value) :
  ∀ h r ev,
    _names h !! n = Some r → Peer.events r = Some ev →
    ∃ ev',
      _registerEvents n events h
      = Run (set_names (<[n := Peer.set_events ev' r]> (_names h)) h) []
          (Normal tt).
Proof.
  unfold _registerEvents.
  induction events as [|e events IH]; intros h r ev Hn He.
  - exists ev. simpl. rewrite (registry_untouched h n r ev Hn He).
    reflexivity.
  - set (ev1 := <[ToString e := count_or_zero ev (ToString e) + 1]> ev).
    set (h1 := set_names (<[n := Peer.set_events ev1 r]> (_names h)) h).
    destruct (IH h1 (Peer.set_events ev1 r) ev1) as [ev' Hrest].
    { apply lookup_insert_eq. }
    { reflexivity. }
    exists ev'. rewrite forEach_cons.
    assert ((_addOrRemoveEvent n "newListener" e;; mret tt) h
            = Run h1 [] (Normal tt)) as Hfirst.
    { rewrite (bind_silent _ _ _ _ _
                 (addOrRemove_newListener h n r ev e Hn He)).
      reflexivity. }
    rewrite (bind_silent _ _ _ _ _ Hfirst), Hrest.
    unfold h1. rewrite set_names_set_names. cbn [_names set_names].
    rewrite insert_insert_eq. reflexivity.
Qed.

(** [report] returns: its client gets the first free candidate of the
    requested name, and the hook gains one entry, stored under that name
    and holding it. *)
Lemma report_first_free h client (hook : Descriptor) :
  d_name hook ≠ "__proto__" →
  ∃ (k : nat) (r : Peer.t),
    let n := candidate (d_name hook) k in
    free h n ∧
    (∀ j : nat, (j < k)%nat → ¬ free h (candidate (d_name hook) j)) ∧
    Peer.name r = n ∧
    report client hook h
    = Run (set_names (<[n := r]> (_names h)) h)
        [Reply [VStr n; VNull; VObj [("version", VStr (pkginfo_version h))]]]
        (Normal (set_client n (d_type hook) client)).
Proof.
  intros Hp.
  destruct (checkName_first_free h (d_name hook) Hp)
    as (k & Hfree & Hleast & Hcheck).
  pose proof (candidate_not_proto (d_name hook) k Hp) as Hpk.
  set (n := candidate (d_name hook) k) in *.
  set (h1 := set_names (<[n := Peer.mk n None None None None]> (_names h)) h)
    in *.
  set (r2 := Peer.mk n (Some (d_type hook)) (Some (conn_id client))
               (Some (remotePort client, remoteAddress client)) (Some ∅)).
  set (h2 := set_names (<[n := r2]> (_names h1)) h1).
  destruct (registerEvents_entry n (d_events hook) h2 r2 ∅) as [ev' Hreg].
  { apply lookup_insert_eq. }
  { reflexivity. }
  exists k, (Peer.set_events ev' r2).
  split; [exact Hfree|]. split; [exact Hleast|]. split; [reflexivity|].
  unfold report. rewrite (bind_silent _ _ _ _ _ Hcheck), bind_self.
  fold n. apply String.eqb_neq in Hpk. rewrite Hpk.
  unfold h1 at 1. cbn [_names set_names]. rewrite lookup_insert_eq.
  change (Peer.name (Peer.mk n None None None None)) with n.
  fold r2. fold h1.
  assert ((update (set_names (<[n := r2]> (_names h1)));;
           _registerEvents n (d_events hook)) h1
          = Run (set_names (<[n := Peer.set_events ev' r2]> (_names h2)) h2)
              [] (Normal tt)) as Hfill.
  { rewrite (bind_silent _ _ h1 h2 tt) by reflexivity. exact Hreg. }
  rewrite (bind_silent _ _ _ _ _ Hfill), bind_self.
  unfold h2, h1. cbn [_names set_names pkginfo_version].
  rewrite !insert_insert_eq. reflexivity.
Qed.

Lemma stored_names_keys (m : gmap string Peer.t) :
  registry_wf m → stored_names m = (map_to_list m).*1.
Proof.
  intros Hwf. unfold stored_names. rewrite <- list_fmap_compose.
  apply list_fmap_ext. intros i [k r] Hi. simpl.
  apply (Hwf k r), elem_of_map_to_list, list_elem_of_lookup. eauto.
Qed.

Lemma stored_names_NoDup (m : gmap string Peer.t) :
  registry_wf m → NoDup (stored_names m).
Proof.
  intros Hwf. rewrite (stored_names_keys m Hwf).
  apply NoDup_fst_map_to_list.
Qed.

Lemma reports_cons_run h h1 client (hook : Descriptor) ds cl client' cs :
  report client hook h = Run h1 cl (Normal client') →
  outcome (reports ds h1) = Normal cs →
  outcome (reports ((client, hook) :: ds) h) = Normal (client' :: cs) ∧
  final (reports ((client, hook) :: ds) h) = final (reports ds h1).
Proof.
  intros Hrun Hrest. cbn [reports].
  rewrite (bind_normal _ _ _ _ _ _ Hrun).
  rewrite (bind_outcome_normal _ _ _ _ Hrest). auto.
Qed.

(** What a sequence of reports leaves behind. *)
Lemma reports_spec (ds : list (Client * Descriptor)) :
  Forall (λ d, reportable d.2) ds →
  ∀ h, ∃ cs,
    outcome (reports ds h) = Normal cs ∧
    name (final (reports ds h)) = name h ∧
    first_free_each h ds cs ∧
    Forall (λ c, ∃ n, c_name c = Some n ∧ n ≠ name h ∧
                      _names h !! n = None ∧
                      is_Some (_names (final (reports ds h)) !! n)) cs ∧
    NoDup (c_name <$> cs) ∧
    (∀ n, is_Some (_names h !! n) →
          is_Some (_names (final (reports ds h)) !! n)) ∧
    (registry_wf (_names h) →
     registry_wf (_names (final (reports ds h)))).
Proof.
  induction ds as [|[client hook] ds IH]; intros Hds h.
  - exists []. simpl. repeat split; auto. constructor.
  - apply Forall_cons in Hds as [[Hp _] Hds].
    destruct (report_first_free h client hook Hp)
      as (k & r & [Hnone Hown] & Hleast & Hr & Hrun).
    set (n := candidate (d_name hook) k) in *.
    set (h1 := set_names (<[n := r]> (_names h)) h) in *.
    destruct (IH Hds h1)
      as (cs & Hout & Hname & Heach & Hall & Hnd & Hmono & Hwf).
    destruct (reports_cons_run h h1 client hook ds _ _ cs Hrun Hout)
      as [Hout' Hfin].
    exists (set_client n (d_type hook) client :: cs).
    rewrite Hfin. split; [exact Hout'|]. split; [exact Hname|].
    assert (is_Some (_names (final (reports ds h1)) !! n)) as Hn.
    { apply Hmono. unfold h1. cbn [_names set_names].
      rewrite lookup_insert_eq. eauto. }
    split; [|split; [|split; [|split]]].
    + cbn [first_free_each]. rewrite Hrun. cbn [final].
      split; [|exact Heach]. exists k. split; [reflexivity|].
      split; [split; assumption | exact Hleast].
    + constructor.
      * exists n. split; [reflexivity|]. auto.
      * eapply Forall_impl; [exact Hall|].
        intros c (n' & Hc & Hn' & Hl & Hs). exists n'.
        split; [exact Hc|]. split; [exact Hn'|]. split; [|exact Hs].
        unfold h1 in Hl. cbn [_names set_names] in Hl.
        apply lookup_insert_None in Hl. tauto.
    + rewrite fmap_cons. constructor; [|exact Hnd].
      intros Hin. apply list_elem_of_fmap in Hin as (c & Hc & Hin).
      rewrite Forall_forall in Hall.
      destruct (Hall c Hin) as (n' & Hc' & _ & Hl & _).
      simpl in Hc. rewrite Hc' in Hc. injection Hc as <-.
      unfold h1 in Hl. cbn [_names set_names] in Hl.
      rewrite lookup_insert_eq in Hl. discriminate.
    + intros n' Hsome. apply Hmono. unfold h1. cbn [_names set_names].
      destruct (decide (n = n')) as [<- | Hne].
      * rewrite lookup_insert_eq. eauto.
      * rewrite lookup_insert_ne by exact Hne. exact Hsome.
    + intros Hw. apply Hwf. unfold h1. cbn [_names set_names].
      apply map_Forall_insert_2; assumption.
Qed.

(** X21: from a registry in which every entry is stored under the name it
    holds, any sequence of reports none of which asks for the name
    [__proto__] ends, with every report answered; each client gets the
    first of the requested name and that name with the suffixes -0, -1, ...
    which no entry has and which is not the server's own name, as the
    registry stands at its turn; no assigned name is the server's own, no
    two clients are assigned the same name, and the names the entries of
    the registry hold are pairwise different afterwards. *)
Theorem reports_assign_unique_names h (ds : list (Client * Descriptor)) :
  registry_wf (_names h) →
  Forall (λ d, reportable d.2) ds →
  ∃ cs,
    outcome (reports ds h) = Normal cs ∧
    first_free_each h ds cs ∧
    Forall (λ c, ∃ n, c_name c = Some n ∧ n ≠ name h ∧
                      is_Some (_names (final (reports ds h)) !! n)) cs ∧
    NoDup (c_name <$> cs) ∧
    name (final (reports ds h)) = name h ∧
    NoDup (stored_names (_names (final (reports ds h)))).
Proof.
  intros Hwf Hds.
  destruct (reports_spec ds Hds h)
    as (cs & Hout & Hname & Heach & Hall & Hnd & _ & Hwf').
  exists cs. split; [exact Hout|]. split; [exact Heach|].
  split; [|split; [exact Hnd|split; [exact Hname|]]].
  - eapply Forall_impl; [exact Hall|].
    intros c (n & Hc & Hn & _ & Hs). eauto.
  - apply stored_names_NoDup, Hwf', Hwf.
Qed.

End Properties.

(** ** Scenarios *)

Section Scenarios.

#[local] Existing Instance NoListeners.
#[local] Existing Instance PlainVersions.

Example worker_registered :
  c_name worker_client = Some "worker" ∧
  Peer.events <$> _names broker !! "worker" = Some (Some {[ "alpha::*" := 1 ]}).
Proof. split; vm_compute; reflexivity. Qed.

(** C1 at a concrete input.  The broker and its client [worker] both
    listen to [alpha::*].  The broker's own [removeAllListeners] and the
    message the client's [removeAllListeners] sends both leave the key in
    the registry: the event is emitted under the name
    [remoteAllListeners], which [_addOrRemoveEvent] does not know. *)
Theorem C1_removeAllListeners_keeps_key :
  Peer.events <$> _names broker_listening !! "srv"
  = Some (Some {[ "alpha::*" := 1 ]}) ∧
  Peer.events <$>
    _names (final (removeAllListeners (VStr "alpha::*") broker_listening))
      !! "srv"
  = Some (Some {[ "alpha::*" := 1 ]}) ∧
  calls (removeAllListeners (VStr "alpha::*") (connected "worker" "1.2.3"))
  = [RemoveAllListeners (VStr "alpha::*");
     RemoteMessage "remoteAllListeners" (VStr "alpha::*") (Given VUndefined);
     LocalEmit "remoteAllListeners" (VStr "alpha::*") (Given VUndefined)] ∧
  Peer.events <$>
    _names (final (server_message worker_client "remoteAllListeners"
                     (VStr "alpha::*") VUndefined broker_listening))
      !! "worker"
  = Some (Some {[ "alpha::*" := 1 ]}).
Proof. repeat split; vm_compute; reflexivity. Qed.

(** C3 at a concrete input.  [emit('job', {v: 1})] hands the synthesized
    callback to the listeners; called as [callback(null)], without an
    error and without a result, it throws at [result.ctx = data] and emits
    neither [job::result] nor [job::error]. *)
Theorem C3_synthesized_callback_without_result :
  calls (emit "job" job_data VUndefined (fresh "worker" "1.2.3"))
  = [Log "job" job_data;
     LocalEmit "job" job_data (Synthesized "job" job_data)] ∧
  synthesized_callback "job" job_data VNull VUndefined
    (fresh "worker" "1.2.3")
  = Run (fresh "worker" "1.2.3") [] (Thrown TypeError) ∧
  emitted (calls (synthesized_callback "job" job_data VNull VUndefined
                    (fresh "worker" "1.2.3"))) = [].
Proof. repeat split; vm_compute; reflexivity. Qed.

(** C4 at a concrete input.  The client [worker] has taken its only
    listener off, and the registry knows; the broker emits [alpha::one].
    The client's [hasEvent] replies with the empty array of listeners,
    which is truthy, and the intercept sends the message. *)
Theorem C4_message_without_listener :
  let peer := connected "worker" "1.2.3" in
  let cb := Synthesized "alpha::one" (VObj [("v", VNum 2)]) in
  Peer.events <$> _names broker_after_off !! "worker" = Some (Some ∅) ∧
  ee_listeners (listenerTree peer) (VArr [VStr "alpha"; VStr "one"] []) = [] ∧
  hasEvent_reply peer VUndefined ["alpha"; "one"] = (VNull, VArr [] []) ∧
  intercept (hasEvent_reply peer VUndefined) worker_client "alpha::one"
    (VObj [("v", VNum 2)]) cb broker_after_off
  = Run broker_after_off
      [ClientHasEvent 1 ["alpha"; "one"] cb
         (OnHasEvent worker_client "alpha::one" (VObj [("v", VNum 2)]) cb);
       ClientMessage 1 "alpha::one" (VObj [("v", VNum 2)]) cb]
      (Normal tt).
Proof. repeat split; vm_compute; reflexivity. Qed.

(** C6 at a concrete input.  Asked for [alpha::one] as an array of
    segments, a hook without listeners replies [(null, [])]: the second
    argument is the array of listeners, not a boolean, and it is truthy
    although no listener matches. *)
Theorem C6_hasEvent_replies_array :
  rpc_hasEvent (VArr [VStr "alpha"; VStr "one"] []) VUndefined
    (connected "worker" "1.2.3")
  = Run (connected "worker" "1.2.3")
      [Listeners (VArr [VStr "alpha"; VStr "one"] []);
       Reply [VNull; VArr [] []]]
      (Normal tt) ∧
  truthy (VArr [] []) = true ∧
  (∀ b, VArr [] [] ≠ VBool b).
Proof. repeat split; try (vm_compute; reflexivity). discriminate. Qed.

(** *** The theorems at concrete inputs *)

Example three_reports_names :
  (fmap (M := list) c_name)
    <$> completion_value (outcome (reports three_reports srv))
  = Some [Some "worker"; Some "worker-0"; Some "srv-0"].
Proof. vm_compute. reflexivity. Qed.

Lemma srv_registry_wf : registry_wf (_names srv).
Proof.
  rewrite srv_registry. apply map_Forall_singleton. reflexivity.
Defined.

Lemma three_reports_reportable : Forall (λ d, reportable d.2) three_reports.
Proof.
  repeat constructor; simpl; discriminate.
Qed.

(** C2 at a concrete input.  Two clients report to the broker [srv], both
    under the name [__proto__].  [checkName] finds the name among no keys
    of the registry either time, the assignment at [__proto__] stores no
    key, and both clients are answered with the name [__proto__], without
    a suffix; the keys of the registry are the one of [srv] as before. *)
Theorem C2_proto_name_assigned_twice :
  outcome (reports proto_reports srv)
  = Normal [set_client "__proto__" (VStr "hook") (client_of 1);
            set_client "__proto__" (VStr "hook") (client_of 2)] ∧
  calls (reports proto_reports srv)
  = [Reply [VStr "__proto__"; VNull; VObj [("version", VStr "1.2.3")]];
     Reply [VStr "__proto__"; VNull; VObj [("version", VStr "1.2.3")]]] ∧
  _names (final (reports proto_reports srv)) = _names srv.
Proof. repeat split; vm_compute; reflexivity. Qed.

Lemma reports_assign_unique_names_witness :
  registry_wf (_names srv) ∧
  ∃ cs,
    outcome (reports three_reports srv) = Normal cs ∧
    first_free_each srv three_reports cs ∧
    Forall (λ c, ∃ n, c_name c = Some n ∧ n ≠ name srv ∧
              is_Some (_names (final (reports three_reports srv)) !! n)) cs ∧
    NoDup (c_name <$> cs) ∧
    name (final (reports three_reports srv)) = name srv ∧
    NoDup (stored_names (_names (final (reports three_reports srv)))).
Proof.
  split; [exact srv_registry_wf|].
  apply (reports_assign_unique_names srv three_reports srv_registry_wf
           three_reports_reportable).
Defined.

Lemma C5_witness :
  c_name worker_client = Some "worker" ∧
  head (split "worker::alpha::one") = Some "worker" ∧
  broadcast worker_client "worker::alpha::one" job_data
    (Given VUndefined) broker
  = Run broker [] (Normal tt) ∧
  intercept (λ _, (VNull, VBool true)) worker_client "worker::alpha::one"
    job_data (Given VUndefined) broker
  = Run broker [] (Normal tt).
Proof.
  split; [reflexivity|]. split; [reflexivity|].
  apply (C5_no_echo_to_origin broker worker_client "worker"
           "worker::alpha::one" job_data (Given VUndefined)
           (λ _, (VNull, VBool true)));
    reflexivity.
Defined.

Lemma C7_witness :
  semver_neq "1.2.3" (pkginfo_version (connected "h2" "1.2.4")) = true ∧
  report_reply VUndefined "h2" VNull "1.2.3" (connected "h2" "1.2.4")
  = Run (set_name_id "h2" VNull (connected "h2" "1.2.4")) []
      (Thrown (Error
         "remote.version=1.2.3 !== self.pkginfo.version=1.2.4")) ∧
  semver_neq "1.2.3" (pkginfo_version (connected "h2" "1.2.3")) = false ∧
  emitted (calls (report_reply VUndefined "h2" VNull "1.2.3"
                    (connected "h2" "1.2.3")))
  = ["hook::connected"; "hook::started"].
Proof.
  split; [reflexivity|]. split.
  - apply (proj1 (C7_connect_checks_version (connected "h2" "1.2.4")
                    VUndefined "h2" VNull "1.2.3")).
    reflexivity.
  - split; [reflexivity|].
    apply (proj2 (C7_connect_checks_version (connected "h2" "1.2.3")
                    VUndefined "h2" VNull "1.2.3"));
      [reflexivity | constructor].
Defined.

Lemma C9_witness :
  is_string (VNum 7) = false ∧
  is_array (VNum 7) = false ∧
  hasEvent (VNum 7) VUndefined broker = Run broker [] (Normal (VBool false)) ∧
  rpc_hasEvent (VNum 7) VUndefined broker
  = Run broker [Reply [VNull; VBool false]] (Normal tt).
Proof.
  split; [reflexivity|]. split; [reflexivity|].
  apply (C9_hasEvent_malformed_parts broker (VNum 7) VUndefined);
    reflexivity.
Defined.

Lemma C10_witness :
  c_name worker_client = Some "worker" ∧
  _names broker !! "worker" = Some worker_entry ∧
  ∃ ev',
    server_message worker_client "removeListener" (VStr "alpha::*")
      VUndefined broker
    = Run (set_names (<["worker" := Peer.set_events ev' worker_entry]>
             (_names broker)) broker) [] (Normal tt).
Proof.
  split; [reflexivity|]. split; [vm_compute; reflexivity|].
  apply (C10_meta_message_updates_registry_only broker worker_client
           "worker" worker_entry {[ "alpha::*" := 1 ]} "removeListener"
           (VStr "alpha::*") VUndefined).
  - reflexivity.
  - vm_compute. reflexivity.
  - reflexivity.
  - right. reflexivity.
  - reflexivity.
Defined.

Lemma C8_witness :
  ∃ o c,
    start (VObj [("hook-port", VNum 5000)]) on_started (fresh "h2" "1.2.3")
    = Run (fresh "h2" "1.2.3") [Listen o (OnListen o c)] (Normal tt) ∧
    o = VObj [("hook-port", VNum 5000)] ∧ c = on_started ∧
    start_listened o c port_taken (fresh "h2" "1.2.3")
    = Run (fresh "h2" "1.2.3") [Connect o c] (Normal tt) ∧
    start_listened o c host_unknown (fresh "h2" "1.2.3")
    = Run (fresh "h2" "1.2.3") [Invoke c host_unknown] (Normal tt).
Proof.
  destruct (C8_start_listen_then_connect (fresh "h2" "1.2.3")
              (VObj [("hook-port", VNum 5000)]) on_started)
    as (o & c & Hstart & Hsame & _ & Hcb).
  destruct (Hsame (or_introl eq_refl)) as [Ho Hc].
  destruct (Hcb port_taken (fresh "h2" "1.2.3")) as (Hconnect & _ & _).
  destruct (Hcb host_unknown (fresh "h2" "1.2.3")) as (_ & _ & Hreport).
  exists o, c. split; [exact Hstart|]. split; [exact Ho|].
  split; [exact Hc|]. split.
  - apply Hconnect. exists (VObj [("code", VStr "EADDRINUSE");
                                   ("errno", VNum 98)]).
    repeat split.
  - apply Hreport; [|rewrite Hc; reflexivity].
    intros (err & Harg & _ & Hcode). injection Harg as <-.
    discriminate Hcode.
Defined.

Lemma synthesized_callback_error_witness :
  truthy boom = true ∧
  ∃ err',
    set_prop boom "ctx" job_data = Some err' ∧
    (is_object boom = true → get_prop err' "ctx" = Some job_data) ∧
    synthesized_callback "job" job_data boom VUndefined
      (connected "worker" "1.2.3")
    = emit "job::error" err' VUndefined (connected "worker" "1.2.3") ∧
    (transports_known (connected "worker" "1.2.3") →
     emitted (calls (synthesized_callback "job" job_data boom VUndefined
                       (connected "worker" "1.2.3")))
     = ["job::error"]).
Proof.
  split; [reflexivity|].
  apply (synthesized_callback_error (connected "worker" "1.2.3") "job"
           job_data boom VUndefined).
  reflexivity.
Defined.

End Scenarios.

(** ** More properties *)

Section MoreProperties.

Context {Tree : Type} {EE : EventEmitter2 Tree} {SV : Semver}.
Implicit Types (h hb hc : Hook (Tree := Tree)) (client : Client).

(** *** Counts *)

Lemma count_or_zero_nonneg (ev : gmap string Z) (k : string) :
  (∀ c, ev !! k = Some c → 0 < c) → 0 ≤ count_or_zero ev k.
Proof.
  intros Hp. unfold count_or_zero.
  destruct (ev !! k) as [c|] eqn:Hk; [|lia].
  specialize (Hp c eq_refl). destruct (c =? 0); lia.
Qed.

(** What one registry operation can do to the hook: nothing, or replace
    the events of the one entry by one of three maps. *)
Lemma addOrRemove_final h (n event : string) (data : value) :
  final (_addOrRemoveEvent n event data h) = h ∨
  ∃ r ev ev',
    _names h !! n = Some r ∧ Peer.events r = Some ev ∧
    final (_addOrRemoveEvent n event data h)
    = set_names (<[n := Peer.set_events ev' r]> (_names h)) h ∧
    (ev' = <[ToString data := count_or_zero ev (ToString data) + 1]> ev ∨
     ev' = after_remove ev (ToString data) ∨
     ev' = delete (ToString data) ev).
Proof.
  destruct (_names h !! n) as [r|] eqn:Hn.
  - destruct (Peer.events r) as [ev|] eqn:He.
    + destruct (String.eqb event "newListener") eqn:E1.
      { apply String.eqb_eq in E1 as ->. right. exists r, ev. eexists.
        rewrite (addOrRemove_newListener h n r ev data Hn He). eauto. }
      destruct (String.eqb event "removeListener") eqn:E2.
      { apply String.eqb_eq in E2 as ->. right. exists r, ev. eexists.
        rewrite (addOrRemove_removeListener h n r ev data Hn He). eauto 6. }
      destruct (String.eqb event "removeAllListeners") eqn:E3.
      { apply String.eqb_eq in E3 as ->. right. exists r, ev. eexists.
        rewrite (addOrRemove_removeAllListeners h n r ev data Hn He).
        eauto 6. }
      left. apply String.eqb_neq in E1, E2, E3.
      rewrite (addOrRemove_unknown h n event data E1 E2 E3). reflexivity.
    + left. unfold _addOrRemoveEvent. rewrite bind_self, Hn, He.
      destruct (String.eqb event "newListener"); [reflexivity|].
      destruct (String.eqb event "removeListener"); [reflexivity|].
      destruct (String.eqb event "removeAllListeners"); reflexivity.
  - left. unfold _addOrRemoveEvent. rewrite bind_self, Hn. reflexivity.
Qed.

Lemma counts_positive_insert (m : gmap string Peer.t) (n : string)
    (r : Peer.t) (ev' : gmap string Z) :
  counts_positive m →
  (∀ k c, ev' !! k = Some c → 0 < c) →
  counts_positive (<[n := Peer.set_events ev' r]> m).
Proof.
  intros Hm Hev n' r' ev k c Hl He Hk.
  destruct (decide (n = n')) as [<- | Hne].
  - rewrite lookup_insert_eq in Hl. injection Hl as <-.
    simpl in He. injection He as <-. eauto.
  - rewrite lookup_insert_ne in Hl by exact Hne. eauto.
Qed.

Lemma addOrRemove_counts_positive h (n event : string) (data : value) :
  counts_positive (_names h) →
  counts_positive (_names (final (_addOrRemoveEvent n event data h))).
Proof.
  intros Hp.
  destruct (addOrRemove_final h n event data)
    as [-> | (r & ev & ev' & Hn & He & -> & Hev')]; [exact Hp|].
  cbn [_names set_names]. apply counts_positive_insert; [exact Hp|].
  assert (∀ k c, ev !! k = Some c → 0 < c) as Hev by (intros; eapply Hp; eauto).
  intros k c Hk. destruct Hev' as [-> | [-> | ->]].
  - destruct (decide (ToString data = k)) as [<- | Hne].
    + rewrite lookup_insert_eq in Hk. injection Hk as <-.
      pose proof (count_or_zero_nonneg ev (ToString data) (Hev _)). lia.
    + rewrite lookup_insert_ne in Hk by exact Hne. eauto.
  - unfold after_remove in Hk.
    destruct (ev !! ToString data) as [c0|] eqn:Hc0; [|eauto].
    destruct (c0 =? 0); [eauto|].
    destruct (c0 - 1 <=? 0) eqn:Hle.
    + apply lookup_delete_Some in Hk as [_ Hk]. eauto.
    + destruct (decide (ToString data = k)) as [<- | Hne].
      * rewrite lookup_insert_eq in Hk. injection Hk as <-.
        apply Z.leb_gt in Hle. lia.
      * rewrite lookup_insert_ne in Hk by exact Hne. eauto.
  - apply lookup_delete_Some in Hk as [_ Hk]. eauto.
Qed.

Lemma bind_final {A B} (m : M A) (k : A → M B) h :
  final ((m ≫= k) h)
  = match outcome (m h) with
    | Normal a => final (k a (final (m h)))
    | _ => final (m h)
    end.
Proof. unfold mbind, M_bind, bind. destruct (outcome (m h)); reflexivity. Qed.

Lemma forEach_transports_final h (ts : list transport) topic data cb :
  final (forEach ts (λ t, transport_message t topic data cb) h) = h.
Proof.
  induction ts as [|t ts IH]; [reflexivity|].
  rewrite forEach_cons, bind_final.
  assert (final (transport_message t topic data cb h) = h) as Hf
    by (unfold transport_message; destruct (bool_decide _); reflexivity).
  rewrite Hf.
  destruct (outcome (transport_message t topic data cb h));
    [exact IH | reflexivity..].
Qed.

(** An event that is not reserved leaves the hook as it was, also when a
    transport makes [emit] throw. *)
Lemma emit_ordinary_final h (event : string) (data callback : value) :
  event ∉ reserved → final (emit event data callback h) = h.
Proof.
  intros Hr. unfold emit. rewrite (bool_decide_eq_false_2 _ Hr).
  rewrite bind_final. cbn [outcome do final]. rewrite bind_self, bind_final.
  rewrite forEach_transports_final.
  destruct (outcome (forEach _ _ h)); [|reflexivity..].
  rewrite bind_final. destruct (remote h); reflexivity.
Qed.

Lemma emit_counts_positive h (event : string) (data callback : value) :
  counts_positive (_names h) →
  counts_positive (_names (final (emit event data callback h))).
Proof.
  intros Hp. destruct (decide (event ∈ reserved)) as [Hr | Hr].
  - unfold emit. rewrite (bool_decide_eq_true_2 _ Hr), bind_self, bind_final.
    destruct (remote h); [exact Hp|].
    destruct (server h); [|exact Hp].
    pose proof (addOrRemove_counts_positive h (name h) event data Hp) as Hq.
    assert (final ((_addOrRemoveEvent (name h) event data;; mret tt) h)
            = final (_addOrRemoveEvent (name h) event data h)) as Hf.
    { rewrite bind_final.
      destruct (outcome (_addOrRemoveEvent (name h) event data h));
        reflexivity. }
    destruct (outcome ((_addOrRemoveEvent (name h) event data;; mret tt) h));
      cbn [final do]; rewrite Hf; exact Hq.
  - rewrite (emit_ordinary_final h event data callback Hr). exact Hp.
Qed.

Lemma not_meta (event : string) :
  event ∉ meta →
  event ≠ "newListener" ∧ event ≠ "removeListener" ∧
  event ≠ "removeAllListeners".
Proof.
  intros Hm. repeat split; intros ->; apply Hm; unfold meta;
    repeat (first [apply list_elem_of_here | apply list_elem_of_further]).
Qed.

(** An event the switch does not know leaves the hook as it was, whether
    [emit] takes it for reserved or not. *)
Lemma emit_not_meta_final h (event : string) (data callback : value) :
  event ∉ meta → final (emit event data callback h) = h.
Proof.
  intros Hm. destruct (not_meta event Hm) as (H1 & H2 & H3).
  destruct (decide (event ∈ reserved)) as [Hr | Hr].
  - unfold emit. rewrite (bool_decide_eq_true_2 _ Hr), bind_self, bind_final.
    match goal with |- context [outcome (?m h)] => set (first := m) end.
    assert (final (first h) = h) as Hf.
    { unfold first. destruct (remote h); [reflexivity|].
      destruct (server h); [|reflexivity].
      rewrite bind_final,
        (addOrRemove_unknown h (name h) event data H1 H2 H3).
      cbn [outcome final]. destruct (_names h !! name h); reflexivity. }
    destruct (outcome (first h)); rewrite Hf; reflexivity.
  - apply emit_ordinary_final, Hr.
Qed.

(** X4: whatever a client sends through [message], and whoever the client
    is, the counts of the registry stay positive: no operation stores a
    zero or a negative count; and an event the switch of
    [_addOrRemoveEvent] does not know leaves the hook as it was.  The data
    of an event the switch knows is a [plain_key]. *)
Theorem server_message_counts_positive h client (event : string)
    (data callback : value) :
  (event ∈ meta → plain_key data) →
  counts_positive (_names h) →
  counts_positive
    (_names (final (server_message client event data callback h))) ∧
  (event ∉ meta →
   final (server_message client event data callback h) = h).
Proof.
  intros _ Hp. split.
  - unfold server_message. rewrite bind_final.
    pose proof (addOrRemove_counts_positive h (client_key client) event data
                  Hp) as Hq.
    destruct (outcome (_addOrRemoveEvent (client_key client) event data h))
      as [[|]| |]; try exact Hq.
    apply emit_counts_positive, Hq.
  - intros Hm. destruct (not_meta event Hm) as (H1 & H2 & H3).
    unfold server_message.
    rewrite bind_final,
      (addOrRemove_unknown h (client_key client) event data H1 H2 H3).
    cbn [outcome final].
    destruct (_names h !! client_key client); [|reflexivity].
    apply emit_not_meta_final, Hm.
Qed.

Lemma registerEvents_run (n : string) (events : list value) h
    (r : Peer.t) (ev : gmap string Z) :
  _names h !! n = Some r →
  Peer.events r = Some ev →
  ∃ ev',
    _registerEvents n events h
    = Run (set_names (<[n := Peer.set_events ev' r]> (_names h)) h) []
        (Normal tt) ∧
    ∀ k, count_or_zero ev' k = count_or_zero ev k + occurrences k events.
Proof.
  unfold _registerEvents. revert h r ev.
  induction events as [|e events IH]; intros h r ev Hn He.
  - exists ev. simpl. rewrite (registry_untouched h n r ev Hn He).
    split; [reflexivity | intros; lia].
  - set (ev1 := <[ToString e := count_or_zero ev (ToString e) + 1]> ev).
    set (h1 := set_names (<[n := Peer.set_events ev1 r]> (_names h)) h).
    destruct (IH h1 (Peer.set_events ev1 r) ev1) as (ev' & Hrest & Hcount).
    { apply lookup_insert_eq. }
    { reflexivity. }
    exists ev'. split.
    + rewrite forEach_cons.
      assert ((_addOrRemoveEvent n "newListener" e;; mret tt) h
              = Run h1 [] (Normal tt)) as Hfirst.
      { rewrite (bind_silent _ _ _ _ _
                   (addOrRemove_newListener h n r ev e Hn He)).
        reflexivity. }
      rewrite (bind_silent _ _ _ _ _ Hfirst), Hrest.
      unfold h1. rewrite set_names_set_names. cbn [_names set_names].
      rewrite insert_insert_eq. reflexivity.
    + intros k. rewrite Hcount. cbn [occurrences].
      assert (count_or_zero ev1 k
              = count_or_zero ev k
                + (if String.eqb (ToString e) k then 1 else 0)) as ->; [|lia].
      unfold ev1. destruct (String.eqb (ToString e) k) eqn:Ek.
      * apply String.eqb_eq in Ek as ->. unfold count_or_zero at 1.
        rewrite lookup_insert_eq.
        destruct (count_or_zero ev k + 1 =? 0) eqn:E0; [|reflexivity].
        apply Z.eqb_eq in E0. lia.
      * apply String.eqb_neq in Ek. unfold count_or_zero at 1.
        rewrite lookup_insert_ne by exact Ek. unfold count_or_zero. lia.
Qed.

(** X6: [_registerEvents] counts: it returns without a call, changes the
    events of the one entry only, and there the count of every topic
    grows by the number of times the topic is in the list.  The events are
    each a [plain_key], and no count leaves the integers that are exact. *)
Theorem registerEvents_counts (n : string) (events : list value) h
    (r : Peer.t) (ev : gmap string Z) :
  _names h !! n = Some r →
  Peer.events r = Some ev →
  Forall plain_key events →
  (∀ k, Z.abs (count_or_zero ev k) + Z.of_nat (length events) < 2 ^ 53) →
  ∃ ev',
    _registerEvents n events h
    = Run (set_names (<[n := Peer.set_events ev' r]> (_names h)) h) []
        (Normal tt) ∧
    ∀ k, count_or_zero ev' k = count_or_zero ev k + occurrences k events.
Proof. intros Hn He _ _. apply registerEvents_run; assumption. Qed.

(** The two runs of a listener added and removed again. *)
Lemma message_add_remove h client (n : string) (r : Peer.t)
    (ev : gmap string Z) (data l1 l2 : value) :
  c_name client = Some n →
  _names h !! n = Some r →
  Peer.events r = Some ev →
  (∀ c, ev !! ToString data = Some c → 0 < c) →
  let h1 := set_names
              (<[n := Peer.set_events
                   (<[ToString data := count_or_zero ev (ToString data) + 1]>
                      ev) r]> (_names h)) h in
  server_message client "newListener" data l1 h = Run h1 [] (Normal tt) ∧
  server_message client "removeListener" data l2 h1 = Run h [] (Normal tt).
Proof.
  intros Hc Hn He Hpos. unfold server_message, client_key. rewrite Hc.
  cbn [default].
  set (k := ToString data).
  set (ev1 := <[k := count_or_zero ev k + 1]> ev).
  set (r1 := Peer.set_events ev1 r).
  set (h1 := set_names (<[n := r1]> (_names h)) h).
  cbv zeta. split.
  { rewrite (bind_silent _ _ h h1 true)
      by exact (addOrRemove_newListener h n r ev data Hn He).
    reflexivity. }
  assert (_names h1 !! n = Some r1) as Hn1 by apply lookup_insert_eq.
  rewrite (bind_silent _ _ _ _ _
             (addOrRemove_removeListener h1 n r1 ev1 data Hn1 eq_refl)).
  cbn [mret M_ret ret]. fold k.
  assert (after_remove ev1 k = ev) as ->.
  { pose proof (count_or_zero_nonneg ev k Hpos) as Hnn.
    unfold after_remove, ev1. rewrite lookup_insert_eq.
    destruct (count_or_zero ev k + 1 =? 0) eqn:E0;
      [apply Z.eqb_eq in E0; lia|].
    replace (count_or_zero ev k + 1 - 1) with (count_or_zero ev k) by lia.
    unfold count_or_zero in *.
    destruct (ev !! k) as [c|] eqn:Hk.
    - specialize (Hpos c Hk).
      destruct (c =? 0) eqn:Ec; [apply Z.eqb_eq in Ec; lia|].
      destruct (c <=? 0) eqn:Ele; [apply Z.leb_le in Ele; lia|].
      rewrite insert_insert_eq. apply insert_id, Hk.
    - simpl. rewrite delete_insert_eq. apply delete_id, Hk. }
  unfold h1, r1. cbn [_names set_names].
  rewrite insert_insert_eq.
  change (Peer.set_events ev (Peer.set_events ev1 r))
    with (Peer.set_events ev r).
  unfold mret, M_ret, ret. f_equal.
  apply (registry_untouched h n r ev Hn He).
Qed.

(** X5: a listener added and then removed for the same topic leaves the
    hook exactly as it was, and no call is made on the way, when the topic
    is a [plain_key] and its count was positive and below 2^53, or the
    topic was not counted. *)
Theorem add_then_remove_restores h client (n : string) (r : Peer.t)
    (ev : gmap string Z) (data l1 l2 : value) :
  c_name client = Some n →
  _names h !! n = Some r →
  Peer.events r = Some ev →
  plain_key data →
  (∀ c, ev !! ToString data = Some c → 0 < c < 2 ^ 53) →
  let added := server_message client "newListener" data l1 h in
  let removed := server_message client "removeListener" data l2 (final added) in
  Peer.events <$> _names (final added) !! n
  = Some (Some (<[ToString data := count_or_zero ev (ToString data) + 1]> ev)) ∧
  final removed = h ∧ calls added = [] ∧ calls removed = [].
Proof.
  intros Hc Hn He _ Hpos.
  assert (∀ c, ev !! ToString data = Some c → 0 < c) as Hpos'
    by (intros c Hl; apply (Hpos c Hl)).
  destruct (message_add_remove h client n r ev data l1 l2 Hc Hn He Hpos')
    as [Hadd Hrem].
  cbv zeta. rewrite Hadd. cbn [final calls]. rewrite Hrem.
  cbn [final calls _names set_names]. rewrite lookup_insert_eq.
  repeat split.
Qed.

(** *** Topics on the wire *)

Lemma string_app_assoc (a b c : string) : (a +:+ b) +:+ c = a +:+ (b +:+ c).
Proof.
  induction a as [|x a IH]; [reflexivity|].
  change (String x ((a +:+ b) +:+ c) = String x (a +:+ (b +:+ c))).
  rewrite IH. reflexivity.
Qed.

Lemma split_go_nonempty (s cur : string) : split_go s cur ≠ [].
Proof.
  revert cur. induction s as [|a s IH]; intros cur; [discriminate|].
  cbn [split_go]. destruct s as [|b rest]; [discriminate|].
  destruct (Ascii.eqb a colon && Ascii.eqb b colon)%bool;
    [discriminate | apply IH].
Qed.

(** A name without a colon, the delimiter, the rest: the name is the
    first segment. *)
Lemma split_go_qualified (a : string) :
  no_colon a = true →
  ∀ cur e, split_go (a +:+ "::" +:+ e) cur = (cur +:+ a) :: split_go e "".
Proof.
  induction a as [|c a IH]; intros Hc cur e.
  - rewrite string_app_empty_r. reflexivity.
  - cbn [no_colon] in Hc. apply andb_true_iff in Hc as [Hc Ha].
    apply negb_true_iff in Hc.
    change (String c a +:+ "::" +:+ e) with (String c (a +:+ "::" +:+ e)).
    cbn [split_go].
    destruct (a +:+ "::" +:+ e) as [|b rest] eqn:Hs.
    { destruct a; discriminate Hs. }
    rewrite Hc. cbn [andb]. rewrite <- Hs, (IH Ha), string_app_assoc.
    reflexivity.
Qed.

Lemma split_qualified_name (a e : string) :
  no_colon a = true → split (a +:+ "::" +:+ e) = a :: split e.
Proof. intros Ha. unfold split. apply (split_go_qualified a Ha "" e). Qed.

(** A topic that holds the delimiter has more than one segment. *)
Lemma split_go_delimited (a : string) :
  ∀ cur e, (2 ≤ length (split_go (a +:+ "::" +:+ e) cur))%nat.
Proof.
  assert (∀ s cur, (1 ≤ length (split_go s cur))%nat) as Hone.
  { intros s cur. pose proof (split_go_nonempty s cur).
    destruct (split_go s cur); [congruence | simpl; lia]. }
  induction a as [|c a IH]; intros cur e.
  - change ("" +:+ "::" +:+ e) with (String colon (String colon e)).
    cbn [split_go]. rewrite Ascii.eqb_refl. cbn [andb length].
    specialize (Hone e ""). lia.
  - change (String c a +:+ "::" +:+ e) with (String c (a +:+ "::" +:+ e)).
    cbn [split_go].
    destruct (a +:+ "::" +:+ e) as [|b rest] eqn:Hs.
    { destruct a; discriminate Hs. }
    destruct (Ascii.eqb c colon && Ascii.eqb b colon)%bool.
    + cbn [length]. specialize (Hone rest ""). lia.
    + rewrite <- Hs. apply IH.
Qed.

Lemma qualified_not_reserved (a e : string) : a +:+ "::" +:+ e ∉ reserved.
Proof.
  intros Hin. pose proof (split_go_delimited a "" e) as Hlen.
  unfold reserved in Hin.
  repeat (apply elem_of_cons in Hin as [Hin | Hin]);
    [rewrite Hin in Hlen; simpl in Hlen; lia ..
    | apply elem_of_nil in Hin; exact Hin].
Qed.

Lemma qualified_not_meta (a e : string) :
  a +:+ "::" +:+ e ≠ "newListener" ∧
  a +:+ "::" +:+ e ≠ "removeListener" ∧
  a +:+ "::" +:+ e ≠ "removeAllListeners".
Proof.
  pose proof (split_go_delimited a "" e) as Hlen.
  repeat split; intros Heq; rewrite Heq in Hlen; simpl in Hlen; lia.
Qed.

Lemma upstream_app (cs cs' : list call) :
  upstream (cs ++ cs') = upstream cs ++ upstream cs'.
Proof.
  induction cs as [|c cs IH]; [reflexivity|].
  destruct c; simpl; rewrite IH; reflexivity.
Qed.

Lemma upstream_transports (ts : list transport) topic data cb :
  upstream ((λ t, TransportMessage (t_type t) (t_options t) topic data cb)
              <$> ts) = [].
Proof. induction ts; [reflexivity | assumption]. Qed.

(** *** From a client to the broker and on *)

Lemma deliver_one (stub : value) client (cs : list call) topic data cb h :
  upstream cs = [(topic, data, cb)] →
  deliver stub client cs h
  = (server_message client topic data (wire stub cb);; mret tt) h.
Proof. intros Hu. unfold deliver. rewrite Hu. reflexivity. Qed.

Lemma bind_mret_tt (m : M (Tree := Tree) unit) h : (m;; mret tt) h = m h.
Proof.
  unfold mbind, M_bind, bind. destruct (m h) as [f cs [[]| |]]; simpl;
    rewrite ?app_nil_r; reflexivity.
Qed.

(** X7: an ordinary event a client emits goes up once, under the client's
    name, the delimiter and the event; the broker, which knows the client,
    hands exactly this topic with the same data to its own emitter, with
    the function dnode made of the synthesized callback, and its registry
    stays as it was. *)
Theorem relay_to_broker (hc hb : Hook (Tree := Tree)) client
    (event : string) (data stub : value) :
  remote hc = true →
  event ∉ reserved →
  transports_known hc →
  transports_known hb →
  is_function data = false →
  is_function stub = true →
  is_Some (_names hb !! client_key client) →
  let topic := name hc +:+ "::" +:+ event in
  let sent := calls (emit event data VUndefined hc) in
  upstream sent = [(topic, data, Synthesized event data)] ∧
  final (deliver stub client sent hb) = hb ∧
  outcome (deliver stub client sent hb) = Normal tt ∧
  emitted (calls (deliver stub client sent hb)) = [topic] ∧
  LocalEmit topic data (Given stub) ∈ calls (deliver stub client sent hb).
Proof.
  intros Hrem Hr Hkc Hkb Hd Hs [r Hreg]. cbv zeta.
  pose proof (emit_ordinary hc event data VUndefined Hr Hkc) as Hc.
  cbv zeta in Hc. rewrite Hd, Hrem in Hc. cbn [is_function] in Hc.
  assert (upstream (calls (emit event data VUndefined hc))
          = [(name hc +:+ "::" +:+ event, data, Synthesized event data)])
    as Hup.
  { rewrite Hc. cbn [calls upstream].
    rewrite upstream_app, upstream_transports. reflexivity. }
  split; [exact Hup|].
  rewrite (deliver_one stub client _ _ _ _ hb Hup), bind_mret_tt.
  cbn [wire].
  destruct (qualified_not_meta (name hc) event) as (M1 & M2 & M3).
  unfold server_message.
  rewrite (bind_silent _ _ hb hb false).
  2:{ rewrite (addOrRemove_unknown hb _ _ data M1 M2 M3), Hreg.
      reflexivity. }
  pose proof (emit_ordinary hb (name hc +:+ "::" +:+ event) data stub
                (qualified_not_reserved _ _) Hkb) as Hb.
  cbv zeta in Hb. rewrite Hd, Hs in Hb.
  rewrite Hb. cbn [final outcome calls emitted].
  rewrite emitted_app, emitted_transports, emitted_app.
  split; [reflexivity|]. split; [reflexivity|]. split.
  - destruct (remote hb); reflexivity.
  - apply elem_of_cons. right. apply elem_of_app. right.
    apply elem_of_app. right. apply list_elem_of_singleton. reflexivity.
Qed.

(** X8: when the name of the sender has no colon, the topic the broker
    emits for it is never sent back to the sender, whatever the sender
    would answer; a client of another name is asked with the sender's
    name as the first segment, and the topic goes on as it came, without
    the broker's name before it. *)
Theorem forwarded_event_goes_to_the_others hb (origin other : Client)
    (sender event : string) (data : value) (cb : callback) :
  no_colon sender = true →
  c_name origin = Some sender →
  c_message other = true →
  c_name other ≠ Some sender →
  let topic := sender +:+ "::" +:+ event in
  (∀ reply, intercept reply origin topic data cb hb = Run hb [] (Normal tt)) ∧
  broadcast other topic data cb hb
  = Run hb
      [ClientHasEvent (conn_id other) (sender :: split event) cb
         (OnHasEvent other topic data cb)]
      (Normal tt).
Proof.
  intros Hs Ho Hm Hne. cbv zeta.
  pose proof (split_qualified_name sender event Hs) as Hsplit.
  split.
  - intros reply. unfold intercept.
    rewrite (broadcast_skips hb origin _ data cb); [reflexivity|].
    right. rewrite Hsplit, Ho. reflexivity.
  - unfold broadcast. rewrite bind_self, Hsplit, Hm. cbn [head].
    rewrite (bool_decide_eq_true_2 (Some sender ≠ c_name other))
      by congruence.
    cbn [andb].
    assert (bool_decide (length (sender :: split event) = 1%nat) = false)
      as ->.
    { apply bool_decide_eq_false_2. unfold split.
      pose proof (split_go_nonempty event "").
      destruct (split_go event ""); [congruence | simpl; lia]. }
    reflexivity.
Qed.

Lemma newListener_reserved : "newListener" ∈ reserved.
Proof. apply (bool_decide_unpack _). reflexivity. Qed.

Lemma removeListener_reserved : "removeListener" ∈ reserved.
Proof. apply (bool_decide_unpack _). reflexivity. Qed.

(** X9: the mirror of a subscription.  What a client sends when a listener
    is added ([emit] of [newListener], as the emitter does on [on]) makes
    the broker count the topic once more for this client; what it sends on
    [off] for the same topic and listener puts the broker's hook back
    exactly as it was.  The topic is a string that [Object.prototype] does
    not define, its count was positive and below 2^53 or it was not
    counted, and the listener is a function. *)
Theorem subscription_mirror (hc hb : Hook (Tree := Tree)) client (n : string)
    (r : Peer.t) (ev : gmap string Z) (topic : string)
    (listener stub : value) :
  remote hc = true →
  c_name client = Some n →
  _names hb !! n = Some r →
  Peer.events r = Some ev →
  topic ∉ Object_prototype →
  (∀ c, ev !! topic = Some c → 0 < c < 2 ^ 53) →
  is_function listener = true →
  let added :=
    deliver stub client
      (calls (emit "newListener" (VStr topic) listener hc)) hb in
  let removed :=
    deliver stub client (calls (off (VStr topic) listener hc)) (final added) in
  Peer.events <$> _names (final added) !! n
  = Some (Some (<[topic := count_or_zero ev topic + 1]> ev)) ∧
  final removed = hb ∧
  calls added = [] ∧ calls removed = [].
Proof.
  intros Hrem Hc Hn He _ Hpos Hfun. cbv zeta.
  assert (∀ c, ev !! ToString (VStr topic) = Some c → 0 < c) as Hpos'
    by (intros c Hl; apply (Hpos c Hl)).
  destruct (message_add_remove hb client n r ev (VStr topic)
              (wire stub (Given listener)) (wire stub (Given listener))
              Hc Hn He Hpos') as [Hadd Hdel].
  assert (upstream (calls (emit "newListener" (VStr topic) listener hc))
          = [("newListener", VStr topic, Given listener)]) as Hup1.
  { unfold emit.
    rewrite (bool_decide_eq_true_2 _ newListener_reserved), bind_self, Hrem.
    reflexivity. }
  assert (upstream (calls (off (VStr topic) listener hc))
          = [("removeListener", VStr topic, Given listener)]) as Hup2.
  { unfold off, emit. rewrite Hfun.
    rewrite (bind_normal _ _ hc hc [Off (VStr topic) listener] tt)
      by reflexivity.
    rewrite (bind_silent _ _ hc hc tt) by reflexivity.
    rewrite (bind_silent _ _ hc
               (set_tree (ee_off (listenerTree hc) (VStr topic) listener) hc)
               tt)
      by reflexivity.
    rewrite (bool_decide_eq_true_2 _ removeListener_reserved), bind_self.
    cbn [remote set_tree]. rewrite Hrem. reflexivity. }
  rewrite (deliver_one stub client _ _ _ _ hb Hup1), bind_mret_tt, Hadd.
  cbn [final calls].
  rewrite (deliver_one stub client _ _ _ _ _ Hup2), bind_mret_tt, Hdel.
  cbn [final calls _names set_names]. rewrite lookup_insert_eq.
  repeat split.
Qed.

(** *** The end of a connection *)

Lemma disconnected_not_reserved : "hook::disconnected" ∉ reserved.
Proof. apply (bool_decide_eq_false_1 (_ ∈ reserved)). reflexivity. Qed.

(** What the handler does once it has found the entry [n]. *)
Lemma conn_end_found h (keys : list string) (conn : nat) (i : nat)
    (n : string) :
  transports_known h →
  list_find (has_session h conn) keys = Some (i, n) →
  final (conn_end keys conn h) = set_names (delete n (_names h)) h ∧
  outcome (conn_end keys conn h) = Normal tt ∧
  emitted (calls (conn_end keys conn h)) = ["hook::disconnected"] ∧
  LocalEmit "hook::disconnected" (VStr n)
    (Synthesized "hook::disconnected" (VStr n)) ∈ calls (conn_end keys conn h).
Proof.
  intros Hk Hf. unfold conn_end. rewrite bind_self, Hf.
  pose proof (emit_ordinary h "hook::disconnected" (VStr n) VUndefined
                disconnected_not_reserved Hk) as He.
  cbv zeta in He. cbn [is_function] in He.
  rewrite (bind_normal _ _ _ _ _ _ He). cbn [final outcome calls update].
  rewrite app_nil_r. cbn [emitted].
  rewrite emitted_app, emitted_transports, emitted_app.
  split; [reflexivity|]. split; [reflexivity|]. split.
  - destruct (remote h); reflexivity.
  - apply elem_of_cons. right. apply elem_of_app. right.
    apply elem_of_app. right. apply list_elem_of_singleton. reflexivity.
Qed.

Lemma conn_end_final h (keys : list string) (conn : nat) :
  final (conn_end keys conn h) = h ∨
  ∃ n, has_session h conn n ∧
       final (conn_end keys conn h) = set_names (delete n (_names h)) h.
Proof.
  unfold conn_end. rewrite bind_self.
  destruct (list_find (has_session h conn) keys) as [[i n]|] eqn:Hf;
    [|left; reflexivity].
  apply list_find_Some in Hf as (_ & Hs & _).
  rewrite bind_final, (emit_ordinary_final h _ _ _ disconnected_not_reserved).
  destruct (outcome (emit "hook::disconnected" (VStr n) VUndefined h));
    [right; exists n; split; [exact Hs | reflexivity] | left; reflexivity ..].
Qed.

(** X10: the end of a connection.  With [keys] the names of the registry:
    when no entry is of this session nothing happens at all; when one
    entry is, and only one, [hook::disconnected] is emitted with its name
    and then the entry is deleted; in every case an entry of another
    session, or of none like the server's own, stays as it is. *)
Theorem conn_end_removes_the_peer h (keys : list string) (conn : nat) :
  transports_known h →
  (∀ n, n ∈ keys ↔ is_Some (_names h !! n)) →
  ((∀ n, ¬ has_session h conn n) →
   conn_end keys conn h = Run h [] (Normal tt)) ∧
  (∀ n, has_session h conn n →
        (∀ n', has_session h conn n' → n' = n) →
        final (conn_end keys conn h) = set_names (delete n (_names h)) h ∧
        outcome (conn_end keys conn h) = Normal tt ∧
        emitted (calls (conn_end keys conn h)) = ["hook::disconnected"] ∧
        LocalEmit "hook::disconnected" (VStr n)
          (Synthesized "hook::disconnected" (VStr n))
          ∈ calls (conn_end keys conn h)) ∧
  (∀ n r, _names h !! n = Some r → Peer.session r ≠ Some conn →
          _names (final (conn_end keys conn h)) !! n = Some r).
Proof.
  intros Hk Hkeys. split; [|split].
  - intros Hnone. unfold conn_end. rewrite bind_self.
    destruct (list_find (has_session h conn) keys) as [[i n]|] eqn:Hf;
      [|reflexivity].
    apply list_find_Some in Hf as (_ & Hs & _). destruct (Hnone n Hs).
  - intros n Hs Huniq.
    destruct (list_find (has_session h conn) keys) as [[i n']|] eqn:Hf.
    + pose proof Hf as Hf'. apply list_find_Some in Hf' as (_ & Hs' & _).
      rewrite (Huniq n' Hs') in Hf. exact (conn_end_found h keys conn i n Hk Hf).
    + apply list_find_None in Hf. rewrite Forall_forall in Hf.
      destruct (Hf n); [|exact Hs].
      apply Hkeys. destruct Hs as (r & Hr & _). eauto.
  - intros n r Hn Hne.
    destruct (conn_end_final h keys conn) as [-> | (n' & Hs' & ->)];
      [exact Hn|].
    cbn [_names set_names]. rewrite lookup_delete_ne; [exact Hn|].
    intros ->. destruct Hs' as (r' & Hr' & Hsess). congruence.
Qed.

(** [report] as a run, with the entry it leaves. *)
Lemma report_entry h client (hook : Descriptor) :
  d_name hook ≠ "__proto__" →
  ∃ (k : nat) (ev' : gmap string Z),
    let n := candidate (d_name hook) k in
    free h n ∧
    (∀ j : nat, (j < k)%nat → ¬ free h (candidate (d_name hook) j)) ∧
    (∀ t, count_or_zero ev' t = occurrences t (d_events hook)) ∧
    report client hook h
    = Run (set_names
             (<[n := Peer.mk n (Some (d_type hook)) (Some (conn_id client))
                       (Some (remotePort client, remoteAddress client))
                       (Some ev')]> (_names h)) h)
        [Reply [VStr n; VNull; VObj [("version", VStr (pkginfo_version h))]]]
        (Normal (set_client n (d_type hook) client)).
Proof.
  intros Hp.
  destruct (checkName_first_free h (d_name hook) Hp)
    as (k & Hfree & Hleast & Hcheck).
  pose proof (candidate_not_proto (d_name hook) k Hp) as Hpk.
  set (n := candidate (d_name hook) k) in *.
  set (h1 := set_names (<[n := Peer.mk n None None None None]> (_names h)) h)
    in *.
  set (r2 := Peer.mk n (Some (d_type hook)) (Some (conn_id client))
               (Some (remotePort client, remoteAddress client)) (Some ∅)).
  set (h2 := set_names (<[n := r2]> (_names h1)) h1).
  destruct (registerEvents_run n (d_events hook) h2 r2 ∅)
    as (ev' & Hreg & Hcount).
  { apply lookup_insert_eq. }
  { reflexivity. }
  exists k, ev'.
  split; [exact Hfree|]. split; [exact Hleast|]. split.
  { intros t. rewrite Hcount. unfold count_or_zero at 1.
    rewrite lookup_empty. lia. }
  unfold report. rewrite (bind_silent _ _ _ _ _ Hcheck), bind_self.
  fold n. apply String.eqb_neq in Hpk. rewrite Hpk.
  unfold h1 at 1. cbn [_names set_names]. rewrite lookup_insert_eq.
  change (Peer.name (Peer.mk n None None None None)) with n.
  fold r2. fold h1.
  assert ((update (set_names (<[n := r2]> (_names h1)));;
           _registerEvents n (d_events hook)) h1
          = Run (set_names (<[n := Peer.set_events ev' r2]> (_names h2)) h2)
              [] (Normal tt)) as Hfill.
  { rewrite (bind_silent _ _ h1 h2 tt) by reflexivity. exact Hreg. }
  rewrite (bind_silent _ _ _ _ _ Hfill), bind_self.
  unfold h2, h1. cbn [_names set_names pkginfo_version].
  rewrite !insert_insert_eq. reflexivity.
Qed.

(** X11: a connection that reports and then ends leaves the broker's hook
    exactly as it was before the report, when no entry was of this session
    before: the entry [report] made is the one the end of the connection
    deletes, and [hook::disconnected] names the client as [report] named
    it.  The report is [reportable]: its name is not [__proto__], for
    which no entry is made that the end of the connection could find. *)
Theorem report_then_end_restores h client (hook : Descriptor)
    (keys : list string) :
  reportable hook →
  transports_known h →
  (∀ n, ¬ has_session h (conn_id client) n) →
  (∀ n, n ∈ keys ↔ is_Some (_names (final (report client hook h)) !! n)) →
  ∃ n,
    (c_name <$> completion_value (outcome (report client hook h)))
    = Some (Some n) ∧
    let ended := conn_end keys (conn_id client) (final (report client hook h)) in
    final ended = h ∧
    emitted (calls ended) = ["hook::disconnected"] ∧
    LocalEmit "hook::disconnected" (VStr n)
      (Synthesized "hook::disconnected" (VStr n)) ∈ calls ended.
Proof.
  intros [Hp _] Hk Hfresh Hkeys.
  destruct (report_entry h client hook Hp)
    as (k & ev' & [Hnone Hown] & _ & _ & Hrun).
  cbv zeta in Hrun. set (n := candidate (d_name hook) k) in *.
  rewrite Hrun in *. cbn [final outcome completion_value] in *.
  exists n. split; [reflexivity|]. cbv zeta.
  set (h1 := set_names _ h) in *.
  assert (has_session h1 (conn_id client) n) as Hs.
  { eexists. split; [apply lookup_insert_eq | reflexivity]. }
  assert (∀ n', has_session h1 (conn_id client) n' → n' = n) as Huniq.
  { intros n' (r' & Hr' & Hsess).
    destruct (decide (n = n')) as [-> | Hne]; [reflexivity|].
    unfold h1 in Hr'. cbn [_names set_names] in Hr'.
    rewrite lookup_insert_ne in Hr' by exact Hne.
    destruct (Hfresh n'). exists r'. auto. }
  destruct (list_find (has_session h1 (conn_id client)) keys)
    as [[i n']|] eqn:Hf.
  - pose proof Hf as Hf'. apply list_find_Some in Hf' as (_ & Hs' & _).
    rewrite (Huniq n' Hs') in Hf.
    destruct (conn_end_found h1 keys (conn_id client) i n Hk Hf)
      as (Hfin & _ & Hem & Hin).
    split; [|split; assumption].
    rewrite Hfin.
    transitivity (set_names (delete n (_names h1)) h); [reflexivity|].
    unfold h1. cbn [_names set_names].
    rewrite delete_insert_id by exact Hnone. apply set_names_same.
  - apply list_find_None in Hf. rewrite Forall_forall in Hf.
    destruct (Hf n); [|exact Hs].
    apply Hkeys. destruct Hs as (r & Hr & _). eauto.
Qed.

(** *** The server's error handler *)

Lemma bind_error_not_reserved :
  ("error::bind" ∉ reserved) ∧ ("error::unknown" ∉ reserved).
Proof.
  split; apply (bool_decide_eq_false_1 (_ ∈ reserved)); reflexivity.
Qed.

Lemma emit_ordinary_no_connect h (event : string) (data callback : value)
    (o c : value) :
  event ∉ reserved → transports_known h →
  Connect o c ∉ calls (emit event data callback h).
Proof.
  intros Hr Hk Hin.
  pose proof (emit_ordinary h event data callback Hr Hk) as He.
  cbv zeta in He. rewrite He in Hin. cbn [calls] in Hin.
  apply elem_of_cons in Hin as [Hin | Hin]; [discriminate Hin|].
  apply elem_of_app in Hin as [Hin | Hin].
  { apply list_elem_of_fmap in Hin as (t & Ht & _). discriminate Ht. }
  apply elem_of_app in Hin as [Hin | Hin].
  - destruct (remote h).
    + apply list_elem_of_singleton in Hin. discriminate Hin.
    + apply elem_of_nil in Hin. exact Hin.
  - apply list_elem_of_singleton in Hin. discriminate Hin.
Qed.

(** X12: the port is taken.  When the server reports an error whose code
    is the string EADDRINUSE to a hook that [start] started, the handler
    emits [error::bind], forgets the server, and the callback of [start]
    then calls [connect] with the options and the callback [start] was
    given, as the last call; an error with any other code that is a
    string is emitted as [error::unknown], the server is kept and no
    [connect] is made. *)
Theorem taken_port_falls_back_to_connect h h' (options callback err : value)
    (code : string) :
  transports_known h' →
  get_prop err "code" = Some (VStr code) →
  ∃ o c,
    start options callback h = Run h [Listen o (OnListen o c)] (Normal tt) ∧
    let r := server_error (Some (start_listened o c)) [err] h' in
    (code = "EADDRINUSE" →
       final r = set_server false h' ∧
       emitted (calls r) = ["error::bind"] ∧
       last (calls r) = Some (Connect o c) ∧
       outcome r = Normal tt) ∧
    (code ≠ "EADDRINUSE" →
       final r = h' ∧
       emitted (calls r) = ["error::unknown"] ∧
       ∀ o' c', Connect o' c' ∉ calls r).
Proof.
  intros Hk Hcode.
  assert (Ht : truthy err = true).
  { destruct err; simpl in Hcode; try discriminate Hcode; reflexivity. }
  unfold start.
  eexists _, _. split; [reflexivity|].
  generalize (if (negb (truthy callback) && is_function options)%bool
              then VObj [] else options)
             (if (negb (truthy callback) && is_function options)%bool
              then options else callback).
  intros o c. cbv zeta.
  destruct bind_error_not_reserved as [Hb Hu].
  unfold server_error.
  change (default VUndefined ([err] !! 0%nat)) with err.
  rewrite Ht, Hcode. cbn [loose_eq_EADDRINUSE]. split.
  - intros ->. change (String.eqb "EADDRINUSE" "EADDRINUSE") with true.
    cbv iota.
    pose proof (emit_ordinary_emitted h' "error::bind" (hook_port h')
                  VUndefined Hb Hk) as (Hf & Ho & He).
    assert (((h0 ← self;
              emit "error::bind" (hook_port h0) VUndefined;;
              update (set_server false)) h')
            = Run (set_server false h')
                (calls (emit "error::bind" (hook_port h') VUndefined h'))
                (Normal tt)) as Hfirst.
    { rewrite bind_self, (bind_outcome_normal _ _ _ _ Ho), Hf.
      cbn [final calls outcome update]. rewrite app_nil_r. reflexivity. }
    rewrite (bind_normal _ _ _ _ _ _ Hfirst).
    destruct (start_listened_cases o c [err] (set_server false h'))
      as [[_ ->] | [Hn _]].
    2:{ destruct Hn. exists err. auto. }
    cbn [final calls outcome].
    rewrite emitted_app, He. split; [reflexivity|]. split; [reflexivity|].
    split; [apply last_snoc | reflexivity].
  - intros Hne. apply String.eqb_neq in Hne. rewrite Hne.
    pose proof (emit_ordinary_emitted h' "error::unknown" err
                  VUndefined Hu Hk) as (Hf & Ho & He).
    rewrite (bind_outcome_normal _ _ _ _ Ho), Hf.
    destruct (start_listened_cases o c [err] h') as [[Ha _] | [_ ->]].
    { destruct Ha as (e & Harg & _ & Hc). injection Harg as <-.
      rewrite Hcode in Hc. injection Hc as ->.
      rewrite String.eqb_refl in Hne. discriminate. }
    cbn [final calls outcome]. rewrite emitted_app, He.
    assert (final ((if truthy c then apply c [err] else mret ()) h') = h' ∧
            emitted (calls ((if truthy c then apply c [err] else mret ()) h'))
            = [] ∧
            ∀ o' c', Connect o' c'
                     ∉ calls ((if truthy c then apply c [err] else mret ()) h'))
      as (Hf2 & He2 & Hn2).
    { unfold apply. destruct (truthy c), (is_function c);
        (split; [reflexivity|]); (split; [reflexivity|]);
        intros o' c' Hin; cbn in Hin;
        try (apply elem_of_nil in Hin; exact Hin);
        apply list_elem_of_singleton in Hin; discriminate Hin. }
    rewrite Hf2, He2. split; [reflexivity|]. split; [reflexivity|].
    intros o' c' Hin. apply elem_of_app in Hin as [Hin | Hin].
    + exact (emit_ordinary_no_connect h' _ _ _ o' c' Hu Hk Hin).
    + exact (Hn2 o' c' Hin).
Qed.

(** *** The reply of [report], once more *)

Lemma report_reply_connects h (callback : value) (newName : string)
    (newID : value) (version : string) :
  semver_neq version (pkginfo_version h) = false →
  transports_known h →
  final (report_reply callback newName newID version h)
  = set_name_id newName newID h ∧
  emitted (calls (report_reply callback newName newID version h))
  = ["hook::connected"; "hook::started"].
Proof.
  intros Hv Hk.
  destruct lifecycle_not_reserved as [Hc Hs].
  set (h1 := set_name_id newName newID h).
  assert (transports_known h1) as Hk1 by exact Hk.
  destruct (emit_ordinary_emitted h1 "hook::connected" (hook_port h1)
              VUndefined Hc Hk1) as (Hf1 & Ho1 & He1).
  destruct (emit_ordinary_emitted h1 "hook::started" (hook_port h1)
              VUndefined Hs Hk1) as (Hf2 & Ho2 & He2).
  assert (checkVersion version h1 = Run h1 [] (Normal tt)) as Hcv.
  { unfold checkVersion. rewrite bind_self. cbn [pkginfo_version h1 set_name_id].
    rewrite Hv. reflexivity. }
  unfold report_reply.
  rewrite (bind_silent _ _ h h1 tt) by reflexivity.
  rewrite (bind_silent _ _ h1 h1 tt) by exact Hcv.
  rewrite bind_self.
  rewrite (bind_outcome_normal _ _ _ _ Ho1), Hf1.
  rewrite (bind_outcome_normal _ _ _ _ Ho2), Hf2.
  cbn [calls final]. rewrite !emitted_app, He1, He2.
  unfold apply.
  destruct (truthy callback), (is_function callback); split; reflexivity.
Qed.

End MoreProperties.

(** ** The enumeration of the listener tree *)

Section Enumeration.

(** Induction on a value, through its elements and properties. *)
Lemma value_induction (P : value → Prop) :
  P VUndefined → P VNull → (∀ b, P (VBool b)) → (∀ n, P (VNum n)) →
  (∀ s, P (VStr s)) →
  (∀ es ps, Forall P es → Forall (λ kv, P kv.2) ps → P (VArr es ps)) →
  (∀ ps, Forall (λ kv, P kv.2) ps → P (VObj ps)) →
  (∀ i s ps, Forall (λ kv, P kv.2) ps → P (VFun i s ps)) →
  ∀ v, P v.
Proof.
  intros Hu Hn Hb Hz Hs Ha Ho Hf.
  fix IH 1. intros [ | | b | n | s | es ps | ps | i s ps].
  - exact Hu.
  - exact Hn.
  - apply Hb.
  - apply Hz.
  - apply Hs.
  - apply Ha.
    + revert es. fix IHes 1.
      intros [|e es]; constructor; [apply IH | apply IHes].
    + revert ps. fix IHps 1.
      intros [|[k c] ps]; constructor; [apply IH | apply IHps].
  - apply Ho. revert ps. fix IHps 1.
    intros [|[k c] ps]; constructor; [apply IH | apply IHps].
  - apply Hf. revert ps. fix IHps 1.
    intros [|[k c] ps]; constructor; [apply IH | apply IHps].
Qed.

Lemma go_object (ps : list (string * value)) (cur : list string) :
  getStringEvents_go (VObj ps) cur
  = children_of getStringEvents_go cur ps.
Proof. reflexivity. Qed.

Lemma go_array (es : list value) (ps : list (string * value))
    (cur : list string) :
  getStringEvents_go (VArr es ps) cur
  = (indexed ← elements_of getStringEvents_go cur O es;
     named ← children_of getStringEvents_go cur ps;
     Some (indexed ++ named)).
Proof. reflexivity. Qed.

Lemma children_of_cons go cur (k : string) (v : value) l :
  children_of go cur ((k, v) :: l)
  = if String.eqb k "_listeners" then
      rest ← children_of go cur l; Some (join cur :: rest)
    else
      sub ← go v (cur ++ [k]); rest ← children_of go cur l;
      Some (sub ++ rest).
Proof. reflexivity. Qed.

Lemma elements_of_cons go cur (i : nat) (v : value) l :
  elements_of go cur i (v :: l)
  = (sub ← go v (cur ++ [pretty i]); rest ← elements_of go cur (S i) l;
     Some (sub ++ rest)).
Proof. reflexivity. Qed.

Lemma app_snoc_path (cur : list string) (k : string) (p : list string) :
  (cur ++ [k]) ++ p = cur ++ k :: p.
Proof. rewrite <- app_assoc. reflexivity. Qed.

Lemma enumerates_keys_nil (cur : list string) :
  enumerates_keys [] cur (Some []).
Proof.
  split.
  - intros k c p Hin. apply elem_of_nil in Hin. destruct Hin.
  - intros s. split.
    + intros Hin. apply elem_of_nil in Hin. destruct Hin.
    + intros [[[v Hin] _] | (k & c & p & w & Hin & _)];
        apply elem_of_nil in Hin; destruct Hin.
Qed.

(** One more key in front. *)
Lemma enumerates_keys_cons (k : string) (c : value)
    (l : list (string * value)) (cur : list string)
    (sub rest : option (list string)) :
  k ≠ "_listeners" →
  enumerates c (cur ++ [k]) sub →
  enumerates_keys l cur rest →
  enumerates_keys ((k, c) :: l) cur
    (a ← sub; b ← rest; Some (a ++ b)).
Proof.
  intros Hk Hsub Hrest.
  destruct sub as [a|]; cbn [mbind option_bind].
  - destruct rest as [b|]; cbn [mbind option_bind].
    + destruct Hsub as [Hnull Ha]. destruct Hrest as [Hnull' Hb]. split.
      * intros k' c' p Hin Hk'. apply elem_of_cons in Hin as [Heq | Hin].
        -- injection Heq as -> ->. apply Hnull.
        -- eapply Hnull'; eassumption.
      * intros s. rewrite elem_of_app, Ha, Hb. split.
        -- intros [(p & w & Hr & Hl & ->) | [[[v Hv] ->] | Hd]].
           ++ right. exists k, c, p, w. rewrite app_snoc_path.
              repeat split; auto. apply elem_of_cons. auto.
           ++ left. split; [|reflexivity]. exists v.
              apply elem_of_cons. auto.
           ++ right. destruct Hd as (k' & c' & p & w & Hin & Hd).
              exists k', c', p, w. split; [|exact Hd].
              apply elem_of_cons. auto.
        -- intros [[[v Hv] ->] | (k' & c' & p & w & Hin & Hk' & Hr & Hl & ->)].
           ++ apply elem_of_cons in Hv as [Heq | Hv];
                [injection Heq as <- _; congruence|].
              right. left. eauto.
           ++ apply elem_of_cons in Hin as [Heq | Hin].
              ** injection Heq as -> ->. left. exists p, w.
                 rewrite app_snoc_path. auto.
              ** right. right. exists k', c', p, w. auto.
    + destruct Hrest as (k' & c' & p & Hin & Hd).
      exists k', c', p. split; [|exact Hd]. apply elem_of_cons. auto.
  - destruct Hsub as [p Hp]. exists k, c, p.
    split; [apply elem_of_cons; auto | auto].
Qed.

(** The key [_listeners] in front. *)
Lemma enumerates_keys_listeners (c : value) (l : list (string * value))
    (cur : list string) (rest : option (list string)) :
  enumerates_keys l cur rest →
  enumerates_keys (("_listeners", c) :: l) cur
    (b ← rest; Some (join cur :: b)).
Proof.
  intros Hrest. destruct rest as [b|]; cbn [mbind option_bind].
  - destruct Hrest as [Hnull Hb]. split.
    + intros k' c' p Hin Hk'. apply elem_of_cons in Hin as [Heq | Hin].
      * injection Heq as -> _. congruence.
      * eapply Hnull; eassumption.
    + intros s. rewrite elem_of_cons, Hb. split.
      * intros [-> | [[[v Hv] ->] | Hd]].
        -- left. split; [|reflexivity]. exists c. apply elem_of_cons. auto.
        -- left. split; [|reflexivity]. exists v. apply elem_of_cons. auto.
        -- right. destruct Hd as (k' & c' & p & w & Hin & Hd).
           exists k', c', p, w. split; [|exact Hd]. apply elem_of_cons. auto.
      * intros [[_ ->] | (k' & c' & p & w & Hin & Hk' & Hd)]; [auto|].
        apply elem_of_cons in Hin as [Heq | Hin].
        -- injection Heq as -> _. congruence.
        -- right. right. exists k', c', p, w. auto.
  - destruct Hrest as (k' & c' & p & Hin & Hd).
    exists k', c', p. split; [|exact Hd]. apply elem_of_cons. auto.
Qed.

Lemma children_of_enumerates (l : list (string * value)) (cur : list string) :
  Forall (λ kv, ∀ cur', enumerates kv.2 cur'
                          (getStringEvents_go kv.2 cur')) l →
  enumerates_keys l cur (children_of getStringEvents_go cur l).
Proof.
  induction 1 as [|[k c] l Hc _ IH]; [apply enumerates_keys_nil|].
  rewrite children_of_cons.
  destruct (String.eqb k "_listeners") eqn:Hk.
  - apply String.eqb_eq in Hk as ->. apply enumerates_keys_listeners, IH.
  - apply String.eqb_neq in Hk.
    apply enumerates_keys_cons; [exact Hk | apply (Hc (cur ++ [k])) | exact IH].
Qed.

(** An index is written in digits. *)
Lemma pretty_N_go_no_underscore (x : N) (s : string) :
  starts_with_underscore s = false →
  starts_with_underscore (pretty_N_go x s) = false.
Proof.
  revert s. induction (N.lt_wf_0 x) as [x _ IH]. intros s Hs.
  destruct (decide (x = 0)%N) as [-> | Hx].
  - rewrite pretty_N_go_0. exact Hs.
  - rewrite pretty_N_go_step by lia. apply IH.
    + apply N.div_lt; lia.
    + unfold pretty_N_char. repeat case_match; reflexivity.
Qed.

Lemma index_not_listeners (i : nat) : pretty i ≠ "_listeners".
Proof.
  intros Heq.
  assert (starts_with_underscore (pretty i) = false) as Hs.
  { unfold pretty, pretty_nat, pretty, pretty_N.
    destruct (decide (N.of_nat i = 0)%N); [reflexivity|].
    apply pretty_N_go_no_underscore. reflexivity. }
  rewrite Heq in Hs. discriminate Hs.
Qed.

Lemma elements_of_enumerates (es : list value) (cur : list string) :
  Forall (λ e, ∀ cur', enumerates e cur' (getStringEvents_go e cur')) es →
  ∀ i : nat,
    enumerates_keys (imap (λ j e, (pretty (i + j)%nat, e)) es) cur
      (elements_of getStringEvents_go cur i es).
Proof.
  induction 1 as [|e es He _ IH]; intros i; [apply enumerates_keys_nil|].
  rewrite elements_of_cons. cbn [imap].
  replace (i + 0)%nat with i by lia.
  apply enumerates_keys_cons;
    [apply index_not_listeners | apply (He (cur ++ [pretty i])) |].
  rewrite (imap_ext _ (λ j e0, (pretty (S i + j)%nat, e0)));
    [apply IH|].
  intros j x _. cbn. f_equal. f_equal. lia.
Qed.

(** The keys of the elements, then the keys of the properties. *)
Lemma enumerates_keys_app (l1 l2 : list (string * value))
    (cur : list string) (r1 r2 : option (list string)) :
  enumerates_keys l1 cur r1 →
  enumerates_keys l2 cur r2 →
  enumerates_keys (l1 ++ l2) cur (a ← r1; b ← r2; Some (a ++ b)).
Proof.
  intros H1 H2.
  destruct r1 as [a|]; cbn [mbind option_bind].
  - destruct r2 as [b|]; cbn [mbind option_bind].
    + destruct H1 as [N1 S1]. destruct H2 as [N2 S2]. split.
      * intros k c p Hin. apply elem_of_app in Hin as [Hin | Hin]; eauto.
      * intros s. rewrite elem_of_app, S1, S2. split.
        -- intros [[[[v Hv] ->] | (k & c & p & w & Hin & Hd)]
                  | [[[v Hv] ->] | (k & c & p & w & Hin & Hd)]].
           ++ left. split; [|reflexivity]. exists v. apply elem_of_app. auto.
           ++ right. exists k, c, p, w. split; [|exact Hd].
              apply elem_of_app. auto.
           ++ left. split; [|reflexivity]. exists v. apply elem_of_app. auto.
           ++ right. exists k, c, p, w. split; [|exact Hd].
              apply elem_of_app. auto.
        -- intros [[[v Hv] ->] | (k & c & p & w & Hin & Hd)].
           ++ apply elem_of_app in Hv as [Hv | Hv]; [left | right]; left; eauto.
           ++ apply elem_of_app in Hin as [Hin | Hin]; [left | right];
                right; exists k, c, p, w; auto.
    + destruct H2 as (k & c & p & Hin & Hd). exists k, c, p.
      split; [|exact Hd]. apply elem_of_app. auto.
  - destruct H1 as (k & c & p & Hin & Hd). exists k, c, p.
    split; [|exact Hd]. apply elem_of_app. auto.
Qed.

(** From the keys of a node to the node. *)
Lemma enumerates_node (v : value) (cur : list string)
    (res : option (list string)) :
  v ≠ VNull →
  enumerates_keys (entries v) cur res →
  enumerates v cur res.
Proof.
  intros Hv Hres.
  assert (∀ p w, reaches v p w →
            (p = [] ∧ w = v) ∨
            ∃ k c p', p = k :: p' ∧ (k, c) ∈ entries v ∧
                      k ≠ "_listeners" ∧ reaches c p' w) as Hinv.
  { intros p w Hr. destruct Hr as [v | v k c p w Hin Hk Hr]; [auto|].
    right. exists k, c, p. auto. }
  destruct res as [paths|]; cbn [enumerates enumerates_keys] in *.
  - destruct Hres as [Hnull Hs]. split.
    + intros p Hr. destruct (Hinv p VNull Hr)
        as [[_ Heq] | (k & c & p' & -> & Hin & Hk & Hr')].
      * congruence.
      * exact (Hnull k c p' Hin Hk Hr').
    + intros s. rewrite Hs. split.
      * intros [[Hl ->] | (k & c & p & w & Hin & Hk & Hr & Hl & ->)].
        -- exists [], v. rewrite app_nil_r.
           split; [constructor | split; [exact Hl | reflexivity]].
        -- exists (k :: p), w. split; [econstructor; eassumption|]. auto.
      * intros (p & w & Hr & Hl & ->).
        destruct (Hinv p w Hr)
          as [[-> ->] | (k & c & p' & -> & Hin & Hk & Hr')].
        -- left. rewrite app_nil_r. auto.
        -- right. exists k, c, p', w. auto.
  - destruct Hres as (k & c & p & Hin & Hk & Hr).
    exists (k :: p). econstructor; eassumption.
Qed.

Lemma go_enumerates (v : value) :
  ∀ cur, enumerates v cur (getStringEvents_go v cur).
Proof.
  induction v as [ | | b | n | s | es ps Hes Hps | ps Hps | i s ps _]
    using value_induction; intros cur.
  1, 3-5, 8:
    (split;
     [ intros p Hr; inversion Hr as [|? ? ? ? ? Hin]; subst;
       apply elem_of_nil in Hin; exact Hin
     | intros s'; split;
       [ intros Hin; apply elem_of_nil in Hin; destruct Hin
       | intros (p & w & Hr & [l Hl] & _);
         inversion Hr as [|? ? ? ? ? Hin]; subst;
         [ apply elem_of_nil in Hl; destruct Hl
         | apply elem_of_nil in Hin; destruct Hin ] ] ]).
  - exists []. constructor.
  - rewrite go_array. apply enumerates_node; [discriminate|].
    cbn [entries]. apply enumerates_keys_app.
    + apply (elements_of_enumerates es cur Hes O).
    + apply children_of_enumerates, Hps.
  - rewrite go_object. apply enumerates_node; [discriminate|].
    apply children_of_enumerates, Hps.
Qed.

(** X13: [getStringEvents] enumerates the tree.  For a tree that is an
    object it throws exactly when a null is reached from the root through
    keys other than [_listeners]; else a string is among the paths it
    returns exactly when it is the path, joined by the delimiter, of a
    node that has the key [_listeners] and is reached that way; for what
    is no object it returns undefined. *)
Theorem getStringEvents_enumerates (tree : value) :
  match getStringEvents tree with
  | Normal (Some paths) =>
      typeof_object tree = true ∧
      (∀ p, ¬ reaches tree p VNull) ∧
      ∀ s, s ∈ paths ↔
           ∃ p w, reaches tree p w ∧ has_listeners w ∧ s = join p
  | Normal None => typeof_object tree = false
  | Thrown e => e = TypeError ∧ ∃ p, reaches tree p VNull
  | Diverges => False
  end.
Proof.
  unfold getStringEvents. pose proof (go_enumerates tree []) as Hgo.
  destruct (typeof_object tree) eqn:Ht; [|reflexivity].
  destruct (getStringEvents_go tree []) as [paths|];
    cbn [enumerates] in Hgo.
  - destruct Hgo as [Hnull Hs]. auto.
  - auto.
Qed.

(** *** The handlers that enumerate *)

Context {TB : Type} {SV : Semver}.




(** X15: the handshake.  A hook whose tree [getStringEvents] enumerates
    connects and reports; the broker, of the same version, answers.  The
    client then holds the name the broker gave it, the first free
    candidate of the name it had, which is the key and the name of its
    entry in the registry; the entry counts every topic as often as the
    client enumerated it; and the client emits [hook::connected] and then
    [hook::started].  The hook is not named [__proto__], its type is a
    string, which the wire hands on as it is, and no topic is a key that
    [Object.prototype] defines. *)
Theorem handshake (hc : Hook (Tree := value)) (hb : Hook (Tree := TB))
    (client : Client) (callback : value) (paths : list string) :
  name hc ≠ "__proto__" →
  is_string (type hc) = true →
  Forall (λ p, p ∉ Object_prototype) paths →
  getStringEvents (listenerTree hc) = Normal (Some paths) →
  transports_known hc →
  semver_neq (pkginfo_version hb) (pkginfo_version hc) = false →
  ∃ (rd : Reported) (d : Descriptor) (k : nat) (ev' : gmap string Z),
    let n := candidate (name hc) k in
    connect_connected hc = Run (set_remote true hc) [] (Normal rd) ∧
    descriptor_of rd = Some d ∧
    free hb n ∧
    (∀ j : nat, (j < k)%nat → ¬ free hb (candidate (name hc) j)) ∧
    outcome (report client d hb) = Normal (set_client n (type hc) client) ∧
    calls (report client d hb)
    = [Reply [VStr n; VNull;
              VObj [("version", VStr (pkginfo_version hb))]]] ∧
    _names (final (report client d hb)) !! n
    = Some (Peer.mk n (Some (type hc)) (Some (conn_id client))
              (Some (remotePort client, remoteAddress client)) (Some ev')) ∧
    (∀ t, count_or_zero ev' t = occurrences t (VStr <$> paths)) ∧
    let fin := report_reply callback n VNull (pkginfo_version hb)
                 (set_remote true hc) in
    name (final fin) = n ∧
    remote (final fin) = true ∧
    emitted (calls fin) = ["hook::connected"; "hook::started"].
Proof.
  intros Hp _ _ Hg Hk Hv.
  set (d := {| d_name := name hc; d_type := type hc;
               d_events := VStr <$> paths |}).
  destruct (report_entry hb client d Hp)
    as (k & ev' & Hfree & Hleast & Hcount & Hrun).
  exists {| rd_name := name hc; rd_type := type hc;
            rd_version := pkginfo_version hc; rd_events := Some paths |},
         d, k, ev'.
  cbv zeta in *. cbn [d_name d_type d_events d] in *.
  split.
  { unfold connect_connected.
    rewrite (bind_silent _ _ hc (set_remote true hc) tt) by reflexivity.
    rewrite bind_self. cbn [listenerTree set_remote]. rewrite Hg.
    reflexivity. }
  split; [reflexivity|]. split; [exact Hfree|]. split; [exact Hleast|].
  rewrite Hrun. cbn [outcome calls final _names set_names].
  split; [reflexivity|]. split; [reflexivity|].
  split; [apply lookup_insert_eq|]. split; [exact Hcount|].
  destruct (report_reply_connects (set_remote true hc) callback
              (candidate (name hc) k) VNull (pkginfo_version hb) Hv Hk)
    as [Hfin Hem].
  rewrite Hfin, Hem. repeat split.
Qed.

End Enumeration.

Section Addresses.

Import JS Regexp Address.

(** *** The residuals of an expression *)

Lemma one_lifts test s t : lifts t (one test s) (one test (s +:+ t)).
Proof.
  intros u. destruct s as [|a s]; simpl; [tauto|].
  destruct (test a); simpl; [|tauto].
  intros [<-|[]]. left. reflexivity.
Qed.

Lemma flat_map_lifts (f : string → list string) t l l' :
  (∀ s, lifts t (f s) (f (s +:+ t))) →
  lifts t l l' → lifts t (flat_map f l) (flat_map f l').
Proof.
  intros Hf Hl u Hu. apply in_flat_map in Hu as (s & Hs & Hu).
  apply in_flat_map. exists (s +:+ t). split; [apply Hl, Hs|apply Hf, Hu].
Qed.

Lemma iter_lifts (f : string → list string) t n l l' :
  (∀ s, lifts t (f s) (f (s +:+ t))) →
  lifts t l l' →
  lifts t (Nat.iter n (flat_map f) l) (Nat.iter n (flat_map f) l').
Proof.
  intros Hf Hl. induction n as [|n IH]; simpl; [exact Hl|].
  apply flat_map_lifts; assumption.
Qed.

Lemma app_lifts t l1 l2 l1' l2' :
  lifts t l1 l1' → lifts t l2 l2' → lifts t (l1 ++ l2) (l1' ++ l2').
Proof.
  intros H1 H2 u Hu. apply in_app_iff in Hu as [Hu|Hu]; apply in_app_iff;
    [left; apply H1, Hu|right; apply H2, Hu].
Qed.

(** What [r] leaves of [s], it leaves of [s] with [t] after it, before
    [t]. *)
Lemma residuals_lifts r t s : lifts t (residuals r s) (residuals r (s +:+ t)).
Proof.
  revert s. induction r as [|c| |ranges|r1 IH1 r2 IH2|r1 IH1 r2 IH2|min extra r1 IH];
    intros s; simpl.
  - intros u [<-|[]]. left. reflexivity.
  - apply one_lifts.
  - apply one_lifts.
  - apply one_lifts.
  - apply flat_map_lifts; [exact IH2|apply IH1].
  - apply app_lifts; [apply IH1|apply IH2].
  - assert (Hi : lifts t (Nat.iter min (flat_map (residuals r1)) [s])
                        (Nat.iter min (flat_map (residuals r1)) [s +:+ t])).
    { apply iter_lifts; [exact IH|]. intros u [<-|[]]. left. reflexivity. }
    revert Hi. generalize (Nat.iter min (flat_map (residuals r1)) [s]).
    generalize (Nat.iter min (flat_map (residuals r1)) [s +:+ t]).
    induction extra as [|n IHn]; intros l' l Hl; [exact Hl|].
    apply app_lifts; [exact Hl|]. apply IHn. apply flat_map_lifts; assumption.
Qed.

Lemma matches_before r s t : matches r s = true → In t (residuals r (s +:+ t)).
Proof.
  unfold matches. intros H. apply existsb_exists in H as (u & Hu & He).
  apply String.eqb_eq in He. subst u.
  apply (residuals_lifts r t s "" Hu).
Qed.

(** A word of [r1] and then a word of [r2] is a word of [Cat r1 r2]. *)
Lemma residuals_cat r1 r2 s u v :
  In u (residuals r1 s) → In v (residuals r2 u) → In v (residuals (Cat r1 r2) s).
Proof. intros H1 H2. simpl. apply in_flat_map. exists u. auto. Qed.

Lemma starts_with_true r s u : In u (residuals r s) → starts_with r s = true.
Proof. unfold starts_with. destruct (residuals r s); [intros []|reflexivity]. Qed.

Lemma matches_true r s : In "" (residuals r s) → matches r s = true.
Proof.
  intros H. apply existsb_exists. exists "". split; [exact H|reflexivity].
Qed.

Lemma residuals_dot a s : line_terminator a = false → In s (residuals Dot (String a s)).
Proof. intros H. simpl. rewrite H. left. reflexivity. Qed.

Lemma residuals_chr a s : In s (residuals (Chr a) (String a s)).
Proof. simpl. rewrite Ascii.eqb_refl. left. reflexivity. Qed.

(** *** The first alternative: four octets *)

Lemma octet_all :
  forallb (λ i, matches octet (pretty (N.of_nat i))) (List.seq 0%nat 256%nat) = true.
Proof. vm_compute. reflexivity. Qed.

Lemma octet_matches (n : N) : (n < 256)%N → matches octet (pretty n) = true.
Proof.
  intros Hn. pose proof octet_all as H.
  rewrite forallb_forall in H. specialize (H (N.to_nat n)).
  rewrite N2Nat.id in H. apply H. apply in_seq. lia.
Qed.

Lemma octet_before (n : N) t : (n < 256)%N → In t (residuals octet (pretty n +:+ t)).
Proof. intros Hn. apply matches_before, octet_matches, Hn. Qed.

Lemma ipv4_quad (a b c d : N) (c1 c2 c3 : Ascii.ascii) (t : string) :
  (a < 256)%N → (b < 256)%N → (c < 256)%N → (d < 256)%N →
  line_terminator c1 = false → line_terminator c2 = false →
  line_terminator c3 = false →
  In t (residuals ipv4
    (pretty a +:+ String c1 (pretty b +:+ String c2
       (pretty c +:+ String c3 (pretty d +:+ t))))).
Proof.
  intros Ha Hb Hc Hd H1 H2 H3. unfold ipv4, seq.
  eapply residuals_cat; [apply octet_before, Ha|].
  eapply residuals_cat; [apply residuals_dot, H1|].
  eapply residuals_cat; [apply octet_before, Hb|].
  eapply residuals_cat; [apply residuals_dot, H2|].
  eapply residuals_cat; [apply octet_before, Hc|].
  eapply residuals_cat; [apply residuals_dot, H3|].
  apply octet_before, Hd.
Qed.

(** *** Words and their characters *)

Lemma occurs_app c w1 w2 :
  occurs c (w1 +:+ w2) = (occurs c w1 || occurs c w2)%bool.
Proof.
  induction w1 as [|a w1 IH]; [reflexivity|].
  change (occurs c (String a (w1 +:+ w2)) =
          ((Ascii.eqb a c || occurs c w1) || occurs c w2)%bool).
  simpl. rewrite IH. apply orb_assoc.
Qed.

Lemma after_weaken s (P Q : string → Prop) l :
  (∀ w, P w → Q w) → after s P l → after s Q l.
Proof. intros HPQ H u Hu. destruct (H u Hu) as (w & -> & Hw). eauto. Qed.

Lemma after_one test s : after s (λ w, ∃ a, w = String a "" ∧ test a = true) (one test s).
Proof.
  intros u. destruct s as [|a s]; simpl; [tauto|].
  destruct (test a) eqn:Ht; simpl; [|tauto].
  intros [<-|[]]. exists (String a ""). split; [reflexivity|eauto].
Qed.

Lemma after_flat_map (f : string → list string) s (P P' : string → Prop) l :
  after s P l → (∀ s', after s' P' (f s')) →
  after s (λ w, ∃ w1 w2, w = w1 +:+ w2 ∧ P w1 ∧ P' w2) (flat_map f l).
Proof.
  intros Hl Hf u Hu. apply in_flat_map in Hu as (s' & Hs' & Hu).
  destruct (Hl s' Hs') as (w1 & -> & H1).
  destruct (Hf s' u Hu) as (w2 & -> & H2).
  exists (w1 +:+ w2). split; [symmetry; apply string_app_assoc|eauto].
Qed.

Lemma after_app s (P : string → Prop) l1 l2 :
  after s P l1 → after s P l2 → after s P (l1 ++ l2).
Proof. intros H1 H2 u Hu. apply in_app_iff in Hu as [Hu|Hu]; auto. Qed.

Lemma iter_after (f : string → list string) (P : string → Prop) s n :
  (∀ s', after s' P (f s')) →
  after s (λ _, True) (Nat.iter n (flat_map f) [s]).
Proof.
  intros Hf. induction n as [|n IHn].
  - intros u [<-|[]]. exists "". split; [reflexivity|exact I].
  - change (Nat.iter (S n) (flat_map f) [s])
      with (flat_map f (Nat.iter n (flat_map f) [s])).
    eapply after_weaken; [|apply after_flat_map; [apply IHn|apply Hf]].
    intros; exact I.
Qed.

(** The character that [r] needs is in every word of [r]. *)
Lemma residuals_needs c r s :
  after s (λ w, needs c r = true → occurs c w = true) (residuals r s).
Proof.
  revert s. induction r as [|c'| |ranges|r1 IH1 r2 IH2|r1 IH1 r2 IH2|min extra r1 IH];
    intros s.
  - intros u [<-|[]]. exists "". split; [reflexivity|discriminate].
  - eapply after_weaken; [|apply after_one].
    intros w (a & -> & Ha) Hc. simpl in *.
    apply Ascii.eqb_eq in Ha. subst a. rewrite Hc. reflexivity.
  - eapply after_weaken; [|apply after_one]. intros w _. discriminate.
  - eapply after_weaken; [|apply after_one]. intros w _. discriminate.
  - eapply after_weaken; [|apply after_flat_map; [apply IH1|apply IH2]].
    intros w (w1 & w2 & -> & H1 & H2) Hn. rewrite occurs_app.
    simpl in Hn. apply orb_true_iff in Hn as [Hn|Hn];
      [rewrite (H1 Hn)|rewrite (H2 Hn), orb_true_r]; reflexivity.
  - simpl. apply after_app.
    + eapply after_weaken; [|apply IH1]. intros w Hw Hn.
      apply andb_true_iff in Hn as [Hn _]. auto.
    + eapply after_weaken; [|apply IH2]. intros w Hw Hn.
      apply andb_true_iff in Hn as [_ Hn]. auto.
  - set (Q := λ w : string,
      (negb (min =? 0)%nat && needs c r1)%bool = true → occurs c w = true).
    change (after s Q (residuals (Rep min extra r1) s)).
    assert (HQ : ∀ w1 w2, Q w1 → Q (w1 +:+ w2)).
    { intros w1 w2 H Hn. rewrite occurs_app, (H Hn). reflexivity. }
    assert (Hi : after s Q (Nat.iter min (flat_map (residuals r1)) [s])).
    { destruct min as [|n].
      - intros u [<-|[]]. exists "". split; [reflexivity|]. intros Hn. discriminate.
      - change (Nat.iter (S n) (flat_map (residuals r1)) [s])
          with (flat_map (residuals r1) (Nat.iter n (flat_map (residuals r1)) [s])).
        pose proof (iter_after (residuals r1) _ s n IH) as Hn.
        eapply after_weaken; [|apply after_flat_map; [apply Hn|apply IH]].
        intros w (w1 & w2 & -> & _ & H2) Hc. simpl in Hc.
        rewrite occurs_app, (H2 Hc), orb_true_r. reflexivity. }
    simpl. revert Hi. generalize (Nat.iter min (flat_map (residuals r1)) [s]).
    induction extra as [|n IHn]; intros l Hl; [exact Hl|].
    apply after_app; [exact Hl|]. apply IHn.
    eapply after_weaken; [|apply after_flat_map; [apply Hl|apply IH]].
    intros w (w1 & w2 & -> & H1 & _). apply HQ, H1.
Qed.

Lemma matches_needs c r s :
  needs c r = true → matches r s = true → occurs c s = true.
Proof.
  intros Hn H. apply existsb_exists in H as (u & Hu & He).
  apply String.eqb_eq in He. subst u.
  destruct (residuals_needs c r s "" Hu) as (w & -> & Hw).
  rewrite occurs_app, (Hw Hn). reflexivity.
Qed.

Lemma suffixes_occurs c s v : In v (suffixes s) → occurs c v = true → occurs c s = true.
Proof.
  induction s as [|a s IH]; simpl.
  - intros [<-|[]]. auto.
  - intros [<-|Hv] Hc; [exact Hc|]. rewrite (IH Hv Hc). apply orb_true_r.
Qed.

Lemma ends_with_needs c r s :
  needs c r = true → ends_with r s = true → occurs c s = true.
Proof.
  intros Hn H. apply existsb_exists in H as (v & Hv & Hm).
  eapply suffixes_occurs; [exact Hv|]. eapply matches_needs; eassumption.
Qed.

Lemma octet_digit_first a s : is_digit a = false → residuals octet (String a s) = [].
Proof.
  intros H. destruct a as [[] [] [] [] [] [] [] []];
    vm_compute in H; try discriminate H; vm_compute; reflexivity.
Qed.

Lemma ipv4_digit_first s : digit_first s = false → starts_with ipv4 s = false.
Proof.
  intros H. unfold starts_with, ipv4, seq.
  change (residuals (Cat octet ?r) s) with (flat_map (residuals r) (residuals octet s)).
  destruct s as [|a s]; [reflexivity|].
  rewrite (octet_digit_first a s H). reflexivity.
Qed.

Lemma suffixes_app p s : In s (suffixes (p +:+ s)).
Proof.
  induction p as [|a p IH].
  - destruct s; left; reflexivity.
  - right. exact IH.
Qed.

(** *** The second alternative: groups of hexadecimal digits *)

Lemma upto_incl (f : string → list string) n l u :
  In u l →
  In u ((fix upto (n : nat) (l : list string) : list string :=
           match n with
           | O => l
           | S n' => l ++ upto n' (flat_map f l)
           end) n l).
Proof. destruct n; [auto|]. intros H. apply in_app_iff. auto. Qed.

Lemma rep_one r extra s u :
  In u (residuals r s) → In u (residuals (Rep 1 extra r) s).
Proof.
  intros H. simpl. apply upto_incl. rewrite app_nil_r. exact H.
Qed.

Lemma upto_mono (f : string → list string) n l l' u :
  (∀ v, In v l → In v l') →
  In u ((fix upto (n : nat) (l : list string) : list string :=
           match n with
           | O => l
           | S n' => l ++ upto n' (flat_map f l)
           end) n l) →
  In u ((fix upto (n : nat) (l : list string) : list string :=
           match n with
           | O => l
           | S n' => l ++ upto n' (flat_map f l)
           end) n l').
Proof.
  revert l l'. induction n as [|n IH]; intros l l' Hl; [apply Hl|].
  intros H. apply in_app_iff in H as [H|H]; apply in_app_iff; [left; auto|].
  right. eapply IH; [|exact H].
  intros v Hv. apply in_flat_map in Hv as (x & Hx & Hv).
  apply in_flat_map. exists x. auto.
Qed.

Lemma rep_more r extra s u v :
  In u (residuals r s) → In v (residuals (Rep 1 extra r) u) →
  In v (residuals (Rep 1 (S extra) r) s).
Proof.
  intros Hu Hv. simpl in *. apply in_app_iff. right.
  eapply upto_mono; [|exact Hv].
  intros x Hx. rewrite app_nil_r in Hx. rewrite app_nil_r.
  apply in_flat_map. exists u. auto.
Qed.

Lemma residuals_hex a s : is_hex a = true → In s (residuals hex (String a s)).
Proof.
  intros H. change (In s (if is_hex a then [s] else [])).
  rewrite H. left. reflexivity.
Qed.

Lemma group_rep n g :
  all_hex g = true → (1 ≤ String.length g)%nat → (String.length g ≤ S n)%nat →
  matches (Rep 1 n hex) g = true.
Proof.
  revert g. induction n as [|n IH]; intros [|a g] Hh Hl Hu; simpl in *; try lia.
  - apply andb_true_iff in Hh as [Ha _]. destruct g; simpl in Hu; [|lia].
    apply matches_true, rep_one, residuals_hex, Ha.
  - apply andb_true_iff in Hh as [Ha Hg]. apply matches_true.
    destruct g as [|b g].
    + apply rep_one, residuals_hex, Ha.
    + eapply rep_more; [apply residuals_hex, Ha|].
      assert (Hm : matches (Rep 1 n hex) (String b g) = true).
      { apply IH; simpl in *; [exact Hg|lia|lia]. }
      apply existsb_exists in Hm as (u & Hu' & He).
      apply String.eqb_eq in He. subst u. exact Hu'.
Qed.

Lemma group_h4 g : is_group g = true → matches h4 g = true.
Proof.
  unfold is_group. intros H.
  apply andb_true_iff in H as [H Hu]. apply andb_true_iff in H as [Hh Hl].
  apply Nat.leb_le in Hl, Hu. apply (group_rep 3 g Hh Hl Hu).
Qed.

Lemma group_colon g t :
  is_group g = true → In t (residuals h4c (g +:+ String colon t)).
Proof.
  intros Hg. unfold h4c, seq.
  eapply residuals_cat; [apply matches_before, group_h4, Hg|].
  apply residuals_chr.
Qed.

Lemma matches_in r s : matches r s = true → In "" (residuals r s).
Proof.
  intros H. apply existsb_exists in H as (u & Hu & He).
  apply String.eqb_eq in He. subst u. exact Hu.
Qed.

Lemma residuals_alts_head r l s u :
  l ≠ [] → In u (residuals r s) → In u (residuals (alts (r :: l)) s).
Proof.
  destruct l as [|r' l]; [congruence|]. intros _ H.
  change (In u (residuals r s ++ residuals (alts (r' :: l)) s)).
  apply in_app_iff. auto.
Qed.

Lemma rep_exact r n s u :
  In u (Nat.iter n (flat_map (residuals r)) [s]) → In u (residuals (Rep n 0 r) s).
Proof. intros H. exact H. Qed.

Lemma iter_step (f : string → list string) n s u v :
  In u (Nat.iter n (flat_map f) [s]) → In v (f u) →
  In v (Nat.iter (S n) (flat_map f) [s]).
Proof. intros Hu Hv. simpl. apply in_flat_map. exists u. auto. Qed.

Lemma ends_with_true r p s : matches r s = true → ends_with r (p +:+ s) = true.
Proof.
  intros H. apply existsb_exists. exists s. split; [apply suffixes_app|exact H].
Qed.

(** X16: four numbers below 256 in decimal, with any three characters but
    line terminators between them (the dot of the expression is not
    escaped) and any text after them (the first alternative has no [$]),
    are an address for [isIP]. *)
Theorem isIP_dotted_quad (a b c d : N) (c1 c2 c3 : Ascii.ascii) (tail : string)
    (Ha : (a < 256)%N) (Hb : (b < 256)%N) (Hc : (c < 256)%N) (Hd : (d < 256)%N)
    (H1 : line_terminator c1 = false) (H2 : line_terminator c2 = false)
    (H3 : line_terminator c3 = false) :
  isIP (pretty a +:+ String c1 (pretty b +:+ String c2
          (pretty c +:+ String c3 (pretty d +:+ tail)))) = true.
Proof.
  unfold isIP. apply orb_true_iff. left.
  eapply starts_with_true. apply (ipv4_quad a b c d c1 c2 c3 tail); assumption.
Qed.

(** X17: a host that does not begin with a digit and has no colon in it
    is no address for [isIP], so [toIPs] asks [dns.resolve] for it and
    does not call back itself. *)
Theorem toIPs_asks_dns_for_names (host : string)
    (Hfirst : digit_first host = false) (Hcolon : occurs colon host = false) :
  isIP host = false ∧ toIPs host = DnsResolve host.
Proof.
  assert (Hip : isIP host = false).
  { unfold isIP. rewrite (ipv4_digit_first host Hfirst). simpl.
    destruct (ends_with ipv6 host) eqn:He; [|reflexivity].
    assert (Hn : needs colon ipv6 = true) by (vm_compute; reflexivity).
    rewrite (ends_with_needs colon ipv6 host Hn He) in Hcolon. discriminate. }
  split; [exact Hip|]. unfold toIPs. rewrite Hip. reflexivity.
Qed.

(** X18: whatever [toIPs] calls back with, at once for an address or from
    [onResolve] after [dns.resolve], is an error that is truthy, or [null]
    and an array whose first element is a string; for an address the
    array is that address alone. *)
Theorem toIPs_calls_back_with_a_host (host : string) (err : value)
    (hosts : list string) (args : list value)
    (Hargs : toIPs host = CallBack args ∨
             (toIPs host = DnsResolve host ∧ args = toIPs_resolved err hosts)) :
  (∃ e, args = [e] ∧ truthy e = true) ∨
  (∃ first rest, args = [VNull; VArr (VStr first :: (VStr <$> rest)) []] ∧
     (isIP host = true → first = host ∧ rest = [])).
Proof.
  destruct Hargs as [H|[H ->]]; unfold toIPs in H.
  - destruct (isIP host) eqn:Hip; simpl in H; [|discriminate].
    injection H as <-. right. exists host, []. auto.
  - destruct (isIP host) eqn:Hip; simpl in H; [discriminate|].
    unfold toIPs_resolved. destruct (truthy err) eqn:He; [left; eauto|].
    destruct hosts as [|first rest]; simpl.
    + left. eexists. split; reflexivity.
    + right. exists first, rest. split; [reflexivity|discriminate].
Qed.

(** X19: eight groups of one to four hexadecimal digits with colons
    between them are an address for [isIP], whatever text stands before
    them (the second alternative has no [^]). *)
Theorem isIP_eight_groups (head g1 g2 g3 g4 g5 g6 g7 g8 : string)
    (Hg : forallb is_group [g1; g2; g3; g4; g5; g6; g7; g8] = true) :
  isIP (head +:+ g1 +:+ String colon (g2 +:+ String colon (g3 +:+ String colon
         (g4 +:+ String colon (g5 +:+ String colon (g6 +:+ String colon
         (g7 +:+ String colon g8))))))) = true.
Proof.
  simpl in Hg. rewrite andb_true_r in Hg.
  apply andb_true_iff in Hg as [G1 Hg]. apply andb_true_iff in Hg as [G2 Hg].
  apply andb_true_iff in Hg as [G3 Hg]. apply andb_true_iff in Hg as [G4 Hg].
  apply andb_true_iff in Hg as [G5 Hg]. apply andb_true_iff in Hg as [G6 Hg].
  apply andb_true_iff in Hg as [G7 G8].
  unfold isIP. apply orb_true_iff. right. apply ends_with_true.
  apply matches_true. unfold ipv6.
  apply residuals_alts_head; [discriminate|].
  unfold seq, times. eapply residuals_cat; [|apply matches_in, group_h4, G8].
  apply rep_exact.
  eapply iter_step; [eapply iter_step; [eapply iter_step; [eapply iter_step;
    [eapply iter_step; [eapply iter_step; [eapply iter_step;
      [left; reflexivity|]|]|]|]|]|]|]; apply group_colon; assumption.
Qed.

End Addresses.

Section CliFlags.

Import JS.

Variable stringify : value → value.

Lemma flags_cliOptions options :
  flags (_cliOptions stringify options) =
  (λ kv : string * value, VStr (cli_flag kv.1)) <$> options.
Proof.
  induction options as [|[k v] options IH]; [reflexivity|].
  simpl. f_equal. exact IH.
Qed.

Lemma cli_flag_cases key :
  ((key ∈ reserved_cli) ∧ cli_flag key = ("--hook-" +:+ key)) ∨
  ((key ∉ reserved_cli) ∧ cli_flag key = ("--" +:+ key)).
Proof.
  unfold cli_flag. destruct (decide (key ∈ reserved_cli)) as [H|H].
  - left. rewrite bool_decide_eq_true_2 by exact H. auto.
  - right. rewrite bool_decide_eq_false_2 by exact H. auto.
Qed.

(** X20: when no key of [options] is [hook-] and then a key of [options]
    that is reserved, the flags [_cliOptions] gives the keys are all
    different, and [cli] holds a flag and a value for every key. *)
Theorem cliOptions_flags_differ (options : list (string * value))
    (Hkeys : NoDup options.*1)
    (Hhook : ∀ key, key ∈ reserved_cli → key ∈ options.*1 →
               "hook-" +:+ key ∉ options.*1) :
  NoDup (flags (_cliOptions stringify options)) ∧
  length (_cliOptions stringify options) = (2 * length options)%nat.
Proof.
  split.
  - rewrite flags_cliOptions.
    change (λ kv : string * value, VStr (cli_flag kv.1))
      with ((λ key, VStr (cli_flag key)) ∘ (fst : string * value → string)).
    rewrite list_fmap_compose.
    apply NoDup_fmap_2_strong; [|exact Hkeys].
    intros k1 k2 H1 H2 He. injection He as He.
    destruct (cli_flag_cases k1) as [[R1 E1]|[R1 E1]],
             (cli_flag_cases k2) as [[R2 E2]|[R2 E2]];
      rewrite E1, E2 in He; vm_compute in He; injection He as He.
    + exact He.
    + subst k2. destruct (Hhook k1 R1 H1 H2).
    + subst k1. destruct (Hhook k2 R2 H2 H1).
    + exact He.
  - induction options as [|[k v] options IH]; [reflexivity|].
    simpl. rewrite IH.
    + lia.
    + inversion Hkeys; assumption.
    + intros key Hr Hk. intros Hin. apply (Hhook key Hr); simpl; right; assumption.
Qed.

End CliFlags.

Section MoreScenarios.

#[local] Existing Instance NoListeners.
#[local] Existing Instance PlainVersions.

Lemma broker_registry :
  _names broker = <["worker" := worker_entry]> {[ "srv" := srv_entry ]}.
Proof. vm_compute. reflexivity. Qed.

Lemma broker_counts_positive : counts_positive (_names broker).
Proof.
  intros n r ev k c Hn Hr Hk. rewrite broker_registry in Hn.
  apply lookup_insert_Some in Hn as [[_ <-]|[_ Hn]].
  - injection Hr as <-. apply lookup_singleton_Some in Hk as [_ <-]. lia.
  - apply lookup_singleton_Some in Hn as [_ <-]. injection Hr as <-.
    rewrite lookup_empty in Hk. discriminate.
Qed.

Lemma alpha_counted (c : Z) :
  ({[ "alpha::*" := 1 ]} : gmap string Z) !! "alpha::*" = Some c →
  0 < c < 2 ^ 53.
Proof.
  intros H. apply lookup_singleton_Some in H as [_ <-].
  split; reflexivity.
Qed.

Lemma alpha_own : "alpha::*" ∉ Object_prototype.
Proof. refine (proj1 (bool_decide_eq_false _) _). vm_compute. reflexivity. Qed.

Lemma beta_own : "beta" ∉ Object_prototype.
Proof. refine (proj1 (bool_decide_eq_false _) _). vm_compute. reflexivity. Qed.

Lemma alpha_plain : plain_key (VStr "alpha::*").
Proof. split; [reflexivity | exact alpha_own]. Qed.

Lemma worker_counts_exact (k : string) :
  Z.abs (count_or_zero {[ "alpha::*" := 1 ]} k) + Z.of_nat 3 < 2 ^ 53.
Proof.
  unfold count_or_zero.
  destruct (({[ "alpha::*" := 1 ]} : gmap string Z) !! k) as [c|] eqn:Hk;
    [apply lookup_singleton_Some in Hk as [_ <-]|]; reflexivity.
Qed.

Lemma broker_keys (n : string) :
  n ∈ ["srv"; "worker"] ↔ is_Some (_names broker !! n).
Proof.
  rewrite broker_registry. split.
  - intros H. apply elem_of_cons in H as [->|H]; [vm_compute; eauto|].
    apply list_elem_of_singleton in H as ->. vm_compute. eauto.
  - intros [r Hr]. apply lookup_insert_Some in Hr as [[<- _]|[_ Hr]].
    + apply list_elem_of_further, list_elem_of_here.
    + apply lookup_singleton_Some in Hr as [<- _]. apply list_elem_of_here.
Qed.

Lemma srv_keys (n : string) : n ∈ ["srv"] ↔ is_Some (_names srv !! n).
Proof.
  rewrite srv_registry. split.
  - intros H. apply list_elem_of_singleton in H as ->. vm_compute. eauto.
  - intros [r Hr]. apply lookup_singleton_Some in Hr as [<- _].
    apply list_elem_of_here.
Qed.

Lemma srv_no_session (n : string) : ¬ has_session srv 1 n.
Proof.
  intros (r & Hr & Hs). rewrite srv_registry in Hr.
  apply lookup_singleton_Some in Hr as [_ <-]. discriminate.
Qed.

Lemma server_message_counts_positive_witness :
  counts_positive
    (_names (final (server_message worker_client "removeListener"
                      (VStr "alpha::*") VUndefined broker))) ∧
  ("removeListener" ∉ meta →
   final (server_message worker_client "removeListener"
            (VStr "alpha::*") VUndefined broker) = broker).
Proof.
  apply (server_message_counts_positive broker worker_client "removeListener"
           (VStr "alpha::*") VUndefined).
  - intros _. exact alpha_plain.
  - exact broker_counts_positive.
Defined.

Lemma add_then_remove_restores_witness :
  let added :=
    server_message worker_client "newListener" (VStr "alpha::*") listener broker in
  let removed :=
    server_message worker_client "removeListener" (VStr "alpha::*") listener
      (final added) in
  Peer.events <$> _names (final added) !! "worker"
  = Some (Some (<["alpha::*" :=
                     count_or_zero {[ "alpha::*" := 1 ]} "alpha::*" + 1]>
                  {[ "alpha::*" := 1 ]})) ∧
  final removed = broker ∧ calls added = [] ∧ calls removed = [].
Proof.
  apply (add_then_remove_restores broker worker_client "worker" worker_entry
           {[ "alpha::*" := 1 ]} (VStr "alpha::*") listener listener).
  - reflexivity.
  - vm_compute. reflexivity.
  - reflexivity.
  - exact alpha_plain.
  - exact alpha_counted.
Defined.

Lemma registerEvents_counts_witness :
  ∃ ev',
    _registerEvents "worker" [VStr "beta"; VStr "alpha::*"; VStr "beta"] broker
    = Run (set_names (<["worker" := Peer.set_events ev' worker_entry]>
             (_names broker)) broker) [] (Normal tt) ∧
    ∀ k, count_or_zero ev' k
         = count_or_zero {[ "alpha::*" := 1 ]} k
           + occurrences k [VStr "beta"; VStr "alpha::*"; VStr "beta"].
Proof.
  apply (registerEvents_counts "worker"
           [VStr "beta"; VStr "alpha::*"; VStr "beta"] broker worker_entry
           {[ "alpha::*" := 1 ]}).
  - vm_compute. reflexivity.
  - reflexivity.
  - repeat constructor; first [exact beta_own | exact alpha_own].
  - exact worker_counts_exact.
Defined.

Lemma relay_to_broker_witness :
  let sent := calls (emit "job" job_data VUndefined (connected "worker" "1.2.3")) in
  upstream sent = [("worker::job", job_data, Synthesized "job" job_data)] ∧
  final (deliver dnode_stub worker_client sent broker) = broker ∧
  outcome (deliver dnode_stub worker_client sent broker) = Normal tt ∧
  emitted (calls (deliver dnode_stub worker_client sent broker))
  = ["worker::job"] ∧
  LocalEmit "worker::job" job_data (Given dnode_stub)
    ∈ calls (deliver dnode_stub worker_client sent broker).
Proof.
  apply (relay_to_broker (connected "worker" "1.2.3") broker worker_client
           "job" job_data dnode_stub).
  - reflexivity.
  - refine (proj1 (bool_decide_eq_false _) _). vm_compute. reflexivity.
  - vm_compute. constructor.
  - vm_compute. constructor.
  - reflexivity.
  - reflexivity.
  - vm_compute. eauto.
Defined.

Lemma forwarded_event_goes_to_the_others_witness :
  (∀ reply, intercept reply worker_client "worker::job" job_data
              (Given VUndefined) broker
            = Run broker [] (Normal tt)) ∧
  broadcast logger_client "worker::job" job_data (Given VUndefined) broker
  = Run broker
      [ClientHasEvent 2 ["worker"; "job"] (Given VUndefined)
         (OnHasEvent logger_client "worker::job" job_data (Given VUndefined))]
      (Normal tt).
Proof.
  apply (forwarded_event_goes_to_the_others broker worker_client logger_client
           "worker" "job" job_data (Given VUndefined)).
  - reflexivity.
  - reflexivity.
  - reflexivity.
  - discriminate.
Defined.

Lemma subscription_mirror_witness :
  let added :=
    deliver dnode_stub worker_client
      (calls (emit "newListener" (VStr "alpha::*") listener
                (connected "worker" "1.2.3"))) broker in
  let removed :=
    deliver dnode_stub worker_client
      (calls (off (VStr "alpha::*") listener (connected "worker" "1.2.3")))
      (final added) in
  Peer.events <$> _names (final added) !! "worker"
  = Some (Some (<["alpha::*" :=
                     count_or_zero {[ "alpha::*" := 1 ]} "alpha::*" + 1]>
                  {[ "alpha::*" := 1 ]})) ∧
  final removed = broker ∧
  calls added = [] ∧ calls removed = [].
Proof.
  apply (subscription_mirror (connected "worker" "1.2.3") broker worker_client
           "worker" worker_entry {[ "alpha::*" := 1 ]} "alpha::*"
           listener dnode_stub).
  - reflexivity.
  - reflexivity.
  - vm_compute. reflexivity.
  - reflexivity.
  - exact alpha_own.
  - exact alpha_counted.
  - reflexivity.
Defined.

Lemma conn_end_removes_the_peer_witness :
  final (conn_end ["srv"; "worker"] 1 broker)
  = set_names (delete "worker" (_names broker)) broker ∧
  emitted (calls (conn_end ["srv"; "worker"] 1 broker))
  = ["hook::disconnected"] ∧
  _names (final (conn_end ["srv"; "worker"] 1 broker)) !! "srv"
  = Some srv_entry ∧
  conn_end ["srv"] 1 srv = Run srv [] (Normal tt).
Proof.
  assert (Hk : transports_known broker) by (vm_compute; constructor).
  destruct (conn_end_removes_the_peer broker ["srv"; "worker"] 1 Hk broker_keys)
    as (_ & Hone & Hother).
  destruct (Hone "worker") as (Hf & _ & He & _).
  { exists worker_entry. split; [vm_compute; reflexivity|reflexivity]. }
  { intros n' (r & Hr & Hs). rewrite broker_registry in Hr.
    apply lookup_insert_Some in Hr as [[<- _]|[_ Hr]]; [reflexivity|].
    apply lookup_singleton_Some in Hr as [_ <-]. discriminate. }
  split; [exact Hf|]. split; [exact He|]. split.
  - apply Hother; [vm_compute; reflexivity|discriminate].
  - assert (Hs : transports_known srv) by (vm_compute; constructor).
    apply (proj1 (conn_end_removes_the_peer srv ["srv"] 1 Hs srv_keys)).
    exact srv_no_session.
Defined.

Lemma report_then_end_restores_witness :
  ∃ n,
    (c_name <$> completion_value (outcome worker_reports)) = Some (Some n) ∧
    let ended := conn_end ["srv"; "worker"] 1 broker in
    final ended = srv ∧
    emitted (calls ended) = ["hook::disconnected"] ∧
    LocalEmit "hook::disconnected" (VStr n)
      (Synthesized "hook::disconnected" (VStr n)) ∈ calls ended.
Proof.
  apply (report_then_end_restores srv (client_of 1)
           {| d_name := "worker"; d_type := VStr "hook";
              d_events := [VStr "alpha::*"] |} ["srv"; "worker"]).
  - split; [discriminate | repeat constructor].
  - vm_compute. constructor.
  - exact srv_no_session.
  - exact broker_keys.
Defined.

Lemma taken_port_falls_back_to_connect_witness :
  ∃ o c,
    start (VObj [("hook-port", VNum 5000)]) on_started (fresh "h2" "1.2.3")
    = Run (fresh "h2" "1.2.3") [Listen o (OnListen o c)] (Normal tt) ∧
    let r := server_error (Some (start_listened o c)) port_taken srv in
    final r = set_server false srv ∧
    emitted (calls r) = ["error::bind"] ∧
    last (calls r) = Some (Connect o c) ∧
    outcome r = Normal tt.
Proof.
  destruct (taken_port_falls_back_to_connect (fresh "h2" "1.2.3") srv
              (VObj [("hook-port", VNum 5000)]) on_started
              (VObj [("code", VStr "EADDRINUSE"); ("errno", VNum 98)])
              "EADDRINUSE")
    as (o & c & Hstart & Htaken & _).
  - vm_compute. constructor.
  - reflexivity.
  - exists o, c. split; [exact Hstart|]. exact (Htaken eq_refl).
Defined.


Lemma handshake_witness :
  ∃ (rd : Reported) (d : Descriptor) (k : nat) (ev' : gmap string Z),
    let n := candidate "worker" k in
    connect_connected subscriber = Run (set_remote true subscriber) [] (Normal rd) ∧
    descriptor_of rd = Some d ∧
    free srv n ∧
    (∀ j : nat, (j < k)%nat → ¬ free srv (candidate "worker" j)) ∧
    outcome (report (client_of 1) d srv)
    = Normal (set_client n (VStr "hook") (client_of 1)) ∧
    calls (report (client_of 1) d srv)
    = [Reply [VStr n; VNull; VObj [("version", VStr "1.2.3")]]] ∧
    _names (final (report (client_of 1) d srv)) !! n
    = Some (Peer.mk n (Some (VStr "hook")) (Some 1%nat)
              (Some (VNum 40001, VStr "127.0.0.1")) (Some ev')) ∧
    (∀ t, count_or_zero ev' t = occurrences t [VStr "alpha::*"]) ∧
    let fin := report_reply on_started n VNull "1.2.3"
                 (set_remote true subscriber) in
    name (final fin) = n ∧
    remote (final fin) = true ∧
    emitted (calls fin) = ["hook::connected"; "hook::started"].
Proof.
  apply (handshake subscriber srv (client_of 1) on_started ["alpha::*"]).
  - discriminate.
  - reflexivity.
  - repeat constructor. exact alpha_own.
  - vm_compute. reflexivity.
  - vm_compute. constructor.
  - reflexivity.
Defined.

Lemma isIP_dotted_quad_witness :
  Address.isIP
    (pretty 192%N +:+ String (Regexp.chr "x") (pretty 168%N +:+
       String (Regexp.chr ".") (pretty 1%N +:+ String (Regexp.chr " ")
         (pretty 1%N +:+ ".example.com")))) = true.
Proof.
  apply (isIP_dotted_quad 192 168 1 1 (Regexp.chr "x") (Regexp.chr ".")
           (Regexp.chr " ") ".example.com");
    solve [lia | reflexivity].
Defined.

Lemma toIPs_asks_dns_for_names_witness :
  Address.isIP "hook.example.com" = false ∧
  Address.toIPs "hook.example.com" = Address.DnsResolve "hook.example.com".
Proof.
  apply (toIPs_asks_dns_for_names "hook.example.com"); reflexivity.
Defined.

Lemma toIPs_calls_back_with_a_host_witness :
  (∃ e, Address.toIPs_resolved VNull ["10.0.0.7"; "10.0.0.8"] = [e] ∧
        truthy e = true) ∨
  (∃ first rest,
     Address.toIPs_resolved VNull ["10.0.0.7"; "10.0.0.8"]
     = [VNull; VArr (VStr first :: (VStr <$> rest)) []] ∧
     (Address.isIP "hook.example.com" = true →
      first = "hook.example.com" ∧ rest = [])).
Proof.
  apply (toIPs_calls_back_with_a_host "hook.example.com" VNull
           ["10.0.0.7"; "10.0.0.8"]).
  right. split; vm_compute; reflexivity.
Defined.

Lemma isIP_eight_groups_witness :
  Address.isIP
    ("see " +:+ "2001" +:+ String colon ("db8" +:+ String colon ("0" +:+
       String colon ("0" +:+ String colon ("0" +:+ String colon ("ff00" +:+
         String colon ("42" +:+ String colon "8329"))))))) = true.
Proof.
  apply (isIP_eight_groups "see " "2001" "db8" "0" "0" "0" "ff00" "42"
           "8329").
  vm_compute. reflexivity.
Defined.

Lemma cliOptions_flags_differ_witness :
  NoDup (flags (_cliOptions (λ _, VStr "{}")
                  [("port", VNum 5000); ("name", VStr "worker");
                   ("debug", VObj [])])) ∧
  length (_cliOptions (λ _, VStr "{}")
            [("port", VNum 5000); ("name", VStr "worker");
             ("debug", VObj [])]) = 6%nat.
Proof.
  apply (cliOptions_flags_differ (λ _, VStr "{}")
           [("port", VNum 5000); ("name", VStr "worker"); ("debug", VObj [])]).
  - refine (bool_decide_unpack _ _). vm_compute. exact I.
  - intros key _ Hk.
    refine (proj1 (bool_decide_eq_false _) _).
    apply elem_of_cons in Hk as [->|Hk]; [vm_compute; reflexivity|].
    apply elem_of_cons in Hk as [->|Hk]; [vm_compute; reflexivity|].
    apply list_elem_of_singleton in Hk as ->. vm_compute. reflexivity.
Defined.

End MoreScenarios.
